(** * The voice-chat session of [src/App.tsx]

    A shallow embedding of the [App] component: its React state, its six
    refs, the handlers [cleanup], [startChat], [handleStop], [handleNext]
    and the four session callbacks [onopen], [onmessage], [onerror] and
    [onclose], written as commands of a small state-and-exception monad
    over a [World] that also holds what the handlers can observe of the
    browser (closed audio contexts, settled promises, pending promise
    reactions) and the ordered trace of the calls they make to it.

    A handler that awaits gives up control: [startChat] is one command up
    to its [await] of [getUserMedia] and another from there on, and so is
    [onmessage] around its [await] of the decoder.  Each part is an event
    of its own, so that any other handler may run in between.

    Times ([AudioContext.currentTime], [AudioBuffer.duration], the argument
    of [source.start]) are counted in sample frames of the 24 kHz output
    context: both the clock and a buffer's duration are a frame count
    divided by that rate, so a time is an integer here.  Rounding of the
    JavaScript doubles is not modelled. *)

From Stdlib Require Import ZArith List String Bool Lia Sorted.
Import ListNotations.
Local Open Scope Z_scope.

(** ** Data *)

(** [ChatStatus] of [./types], as [App.tsx] uses it. *)
Inductive ChatStatus : Type :=
  | IDLE | CONNECTING | CONNECTED | DISCONNECTED | ERROR.

(** Browser objects are compared by identity; each one is named by the
    serial number it received when it was created. *)
Definition MediaStream := nat.
Definition AudioContext := nat.
Definition AudioNode := nat.
Definition AudioBufferSourceNode := nat.
Definition SessionPromise := nat.

(** A decoded buffer; [duration] is its length in frames. *)
Record AudioBuffer : Type := mkAudioBuffer { frames : N }.

Definition duration (b : AudioBuffer) : Z := Z.of_N (frames b).

(** [LiveServerMessage], down the optional chain the handler follows:
    [message.serverContent?.modelTurn?.parts[0]?.inlineData?.data] and
    [message.serverContent?.interrupted].  Every link may be missing, the
    [parts] of a turn included. *)
Record Blob : Type := mkBlob { data : option string }.
Record Part : Type := mkPart { inlineData : option Blob }.
Record Content : Type := mkContent { parts : option (list Part) }.
Record LiveServerContent : Type := mkServerContent {
  modelTurn : option Content;
  interrupted : option bool
}.
Record LiveServerMessage : Type := mkMessage {
  serverContent : option LiveServerContent
}.

(** What a handler registers on the session promise with [.then]. *)
Inductive Reaction : Type :=
  | SendRealtimeInput (media : string)   (* session.sendRealtimeInput({media}) *)
  | Close.                               (* session.close() *)

(** Calls that leave the component, in the order they are made. *)
Inductive Effect : Type :=
  | GetUserMedia
  | TrackStop (stream : MediaStream)
  | NewAudioContext (ctx : AudioContext) (sampleRate : Z)
  | ContextClose (ctx : AudioContext)
  | LiveConnect (p : SessionPromise)
  | SessionSend (p : SessionPromise) (media : string)
  | SessionClose (p : SessionPromise)
  | NodeConnect (n : AudioNode)
  | NodeDisconnect (n : AudioNode)
  | SourceStart (source : AudioBufferSourceNode) (buffer : AudioBuffer) (when : Z)
  | SourceStop (source : AudioBufferSourceNode)
  | ConsoleError (label : string)
  | SetTimeout (ms : Z).

Inductive Exn : Type :=
  | NotAllowedError        (* getUserMedia rejected *)
  | ApiKeyNotSet           (* new Error("API_KEY environment variable not set.") *)
  | MalformedFrame         (* decode / decodeAudioData failed *)
  | TypeError.             (* a property read on undefined *)

(** ** The world *)

Record World : Type := mkWorld {
  (* useState *)
  status : ChatStatus;
  localStream : option MediaStream;
  (* useRef *)
  sessionPromiseRef : option SessionPromise;
  localStreamRef : option MediaStream;
  outputAudioContextRef : option AudioContext;
  nextStartTimeRef : Z;
  playingSourcesRef : list AudioBufferSourceNode;
  inputAudioProcessorRef : option (AudioNode * AudioNode);
  (* browser *)
  closedContexts : list AudioContext;
  resolved : list SessionPromise;
  reactions : list (SessionPromise * Reaction);
  nextId : nat;
  trace : list Effect
}.

(** The component as mounted: [useState] and [useRef] initial values. *)
Definition initial : World :=
  {| status := IDLE; localStream := None;
     sessionPromiseRef := None; localStreamRef := None;
     outputAudioContextRef := None; nextStartTimeRef := 0;
     playingSourcesRef := []; inputAudioProcessorRef := None;
     closedContexts := []; resolved := []; reactions := [];
     nextId := O; trace := [] |}.

Definition with_status (v : ChatStatus) (w : World) : World :=
  mkWorld v (localStream w) (sessionPromiseRef w) (localStreamRef w)
    (outputAudioContextRef w) (nextStartTimeRef w) (playingSourcesRef w)
    (inputAudioProcessorRef w) (closedContexts w) (resolved w) (reactions w)
    (nextId w) (trace w).

Definition with_localStream (v : option MediaStream) (w : World) : World :=
  mkWorld (status w) v (sessionPromiseRef w) (localStreamRef w)
    (outputAudioContextRef w) (nextStartTimeRef w) (playingSourcesRef w)
    (inputAudioProcessorRef w) (closedContexts w) (resolved w) (reactions w)
    (nextId w) (trace w).

Definition with_sessionPromiseRef (v : option SessionPromise) (w : World) : World :=
  mkWorld (status w) (localStream w) v (localStreamRef w)
    (outputAudioContextRef w) (nextStartTimeRef w) (playingSourcesRef w)
    (inputAudioProcessorRef w) (closedContexts w) (resolved w) (reactions w)
    (nextId w) (trace w).

Definition with_localStreamRef (v : option MediaStream) (w : World) : World :=
  mkWorld (status w) (localStream w) (sessionPromiseRef w) v
    (outputAudioContextRef w) (nextStartTimeRef w) (playingSourcesRef w)
    (inputAudioProcessorRef w) (closedContexts w) (resolved w) (reactions w)
    (nextId w) (trace w).

Definition with_outputAudioContextRef (v : option AudioContext) (w : World) : World :=
  mkWorld (status w) (localStream w) (sessionPromiseRef w) (localStreamRef w)
    v (nextStartTimeRef w) (playingSourcesRef w)
    (inputAudioProcessorRef w) (closedContexts w) (resolved w) (reactions w)
    (nextId w) (trace w).

Definition with_nextStartTimeRef (v : Z) (w : World) : World :=
  mkWorld (status w) (localStream w) (sessionPromiseRef w) (localStreamRef w)
    (outputAudioContextRef w) v (playingSourcesRef w)
    (inputAudioProcessorRef w) (closedContexts w) (resolved w) (reactions w)
    (nextId w) (trace w).

Definition with_playingSourcesRef (v : list AudioBufferSourceNode) (w : World) : World :=
  mkWorld (status w) (localStream w) (sessionPromiseRef w) (localStreamRef w)
    (outputAudioContextRef w) (nextStartTimeRef w) v
    (inputAudioProcessorRef w) (closedContexts w) (resolved w) (reactions w)
    (nextId w) (trace w).

Definition with_inputAudioProcessorRef (v : option (AudioNode * AudioNode)) (w : World) : World :=
  mkWorld (status w) (localStream w) (sessionPromiseRef w) (localStreamRef w)
    (outputAudioContextRef w) (nextStartTimeRef w) (playingSourcesRef w)
    v (closedContexts w) (resolved w) (reactions w)
    (nextId w) (trace w).

Definition with_closedContexts (v : list AudioContext) (w : World) : World :=
  mkWorld (status w) (localStream w) (sessionPromiseRef w) (localStreamRef w)
    (outputAudioContextRef w) (nextStartTimeRef w) (playingSourcesRef w)
    (inputAudioProcessorRef w) v (resolved w) (reactions w)
    (nextId w) (trace w).

Definition with_resolved (v : list SessionPromise) (w : World) : World :=
  mkWorld (status w) (localStream w) (sessionPromiseRef w) (localStreamRef w)
    (outputAudioContextRef w) (nextStartTimeRef w) (playingSourcesRef w)
    (inputAudioProcessorRef w) (closedContexts w) v (reactions w)
    (nextId w) (trace w).

Definition with_reactions (v : list (SessionPromise * Reaction)) (w : World) : World :=
  mkWorld (status w) (localStream w) (sessionPromiseRef w) (localStreamRef w)
    (outputAudioContextRef w) (nextStartTimeRef w) (playingSourcesRef w)
    (inputAudioProcessorRef w) (closedContexts w) (resolved w) v
    (nextId w) (trace w).

Definition with_nextId (v : nat) (w : World) : World :=
  mkWorld (status w) (localStream w) (sessionPromiseRef w) (localStreamRef w)
    (outputAudioContextRef w) (nextStartTimeRef w) (playingSourcesRef w)
    (inputAudioProcessorRef w) (closedContexts w) (resolved w) (reactions w)
    v (trace w).

Definition with_trace (v : list Effect) (w : World) : World :=
  mkWorld (status w) (localStream w) (sessionPromiseRef w) (localStreamRef w)
    (outputAudioContextRef w) (nextStartTimeRef w) (playingSourcesRef w)
    (inputAudioProcessorRef w) (closedContexts w) (resolved w) (reactions w)
    (nextId w) v.

(** ** Commands *)

Inductive Outcome (A : Type) : Type :=
  | Returned (a : A)
  | Thrown (e : Exn).
Arguments Returned {A} a.
Arguments Thrown {A} e.

(** A command runs on a world and leaves a world behind, also when it
    throws: what was assigned before a [throw] stays assigned. *)
Definition M (A : Type) : Type := World -> Outcome A * World.

Definition ret {A} (a : A) : M A := fun w => (Returned a, w).

Definition bind {A B} (c : M A) (k : A -> M B) : M B :=
  fun w =>
    match c w with
    | (Returned a, w') => k a w'
    | (Thrown e, w') => (Thrown e, w')
    end.

Definition throw {A} (e : Exn) : M A := fun w => (Thrown e, w).

(** [try { body } catch (error) { handler }] *)
Definition try_catch {A} (body : M A) (handler : Exn -> M A) : M A :=
  fun w =>
    match body w with
    | (Returned a, w') => (Returned a, w')
    | (Thrown e, w') => handler e w'
    end.

(** An expression that reads no state: its value, or what it throws. *)
Definition evaluate {A} (o : Outcome A) : M A := fun w => (o, w).

Definition gets {A} (f : World -> A) : M A := fun w => (Returned (f w), w).
Definition modify (f : World -> World) : M unit := fun w => (Returned tt, f w).

Declare Scope cmd_scope.
Delimit Scope cmd_scope with cmd.
Notation "x <- c ;; k" := (bind c (fun x => k))
  (at level 100, c at next level, right associativity) : cmd_scope.
Notation "c ;; k" := (bind c (fun _ => k))
  (at level 100, right associativity) : cmd_scope.
Local Open Scope cmd_scope.

Definition when (b : bool) (c : M unit) : M unit := if b then c else ret tt.

(** [xs.forEach(f)] *)
Fixpoint forEach {A} (xs : list A) (f : A -> M unit) : M unit :=
  match xs with
  | [] => ret tt
  | x :: rest => f x ;; forEach rest f
  end.

Definition emit (e : Effect) : M unit :=
  modify (fun w => with_trace (trace w ++ [e]) w).

(** A new browser object: the next serial number. *)
Definition fresh : M nat :=
  n <- gets nextId ;;
  modify (with_nextId (S n)) ;;
  ret n.

Definition setStatus (v : ChatStatus) : M unit := modify (with_status v).
Definition setLocalStream (v : option MediaStream) : M unit := modify (with_localStream v).
Definition console_error (label : string) : M unit := emit (ConsoleError label).

(** [source.stop()] *)
Definition source_stop (source : AudioBufferSourceNode) : M unit :=
  emit (SourceStop source).

(** [promise.then(reaction)]: the reaction is queued; it runs in the
    promise job that follows the resolution, or, on a promise already
    resolved, in the job that follows the running handler ([run_jobs]). *)
Definition promise_then (p : SessionPromise) (r : Reaction) : M unit :=
  modify (fun w => with_reactions (reactions w ++ [(p, r)]) w).

(** [Set.prototype.add] and [Set.prototype.delete] on a set kept in
    insertion order, the order [forEach] visits it in. *)
Definition set_add (x : nat) (s : list nat) : list nat :=
  if existsb (Nat.eqb x) s then s else s ++ [x].

Definition set_delete (x : nat) (s : list nat) : list nat :=
  filter (fun y => negb (Nat.eqb x y)) s.

(** JavaScript truthiness of an optional string: [undefined] and the empty
    string are falsy. *)
Definition truthy (s : option string) : bool :=
  match s with
  | Some EmptyString => false
  | Some _ => true
  | None => false
  end.

(** ** The handlers of [App] *)

Section App.

(** [process.env.API_KEY] *)
Variable API_KEY : option string.

(** [decodeAudioData(decode(audioData), outputAudioContext, 24000, 1)] of
    [./utils/audio], a file that is not part of the sources at hand.  It is
    taken as a function of the payload: the buffer the awaited promise
    yields, or [None] when [decode] throws or the promise rejects. *)
Variable decodeAudioData : string -> option AudioBuffer.

(** [cleanup] (lines 108-135). *)
Definition cleanup : M unit :=
  stream <- gets localStreamRef ;;
  match stream with
  | Some s =>
      emit (TrackStop s) ;;
      modify (with_localStreamRef None) ;;
      setLocalStream None
  | None => ret tt
  end ;;
  promise <- gets sessionPromiseRef ;;
  match promise with
  | Some p =>
      promise_then p Close ;;
      modify (with_sessionPromiseRef None)
  | None => ret tt
  end ;;
  proc <- gets inputAudioProcessorRef ;;
  match proc with
  | Some (source, processor) =>
      emit (NodeDisconnect processor) ;;
      emit (NodeDisconnect source) ;;
      modify (with_inputAudioProcessorRef None)
  | None => ret tt
  end ;;
  playing <- gets playingSourcesRef ;;
  forEach playing source_stop ;;
  modify (with_playingSourcesRef []) ;;
  octx <- gets outputAudioContextRef ;;
  match octx with
  | Some ctx =>
      closed <- gets closedContexts ;;
      when (negb (existsb (Nat.eqb ctx) closed))
        (emit (ContextClose ctx) ;;
         modify (with_closedContexts (ctx :: closed)))
  | None => ret tt
  end ;;
  modify (with_outputAudioContextRef None) ;;
  modify (with_nextStartTimeRef 0).

(** [startChat] up to its first [await] (lines 138-143): the call of
    [getUserMedia].  [setStrangerImageUrl] only feeds the picture shown and
    is left out. *)
Definition startChat_begin : M unit :=
  cleanup ;;
  setStatus CONNECTING ;;
  emit GetUserMedia.

Definition new_AudioContext (sampleRate : Z) : M AudioContext :=
  ctx <- fresh ;;
  emit (NewAudioContext ctx sampleRate) ;;
  ret ctx.

(** [startChat] from the point where [getUserMedia] has settled (lines
    143-229); [granted] tells whether it resolved with a stream or
    rejected. *)
Definition startChat_resume (granted : bool) : M unit :=
  try_catch
    (stream <- (if granted then fresh else throw NotAllowedError) ;;
     modify (with_localStreamRef (Some stream)) ;;
     setLocalStream (Some stream) ;;
     (if truthy API_KEY then ret tt else throw ApiKeyNotSet) ;;
     _inputAudioContext <- new_AudioContext 16000 ;;
     outputAudioContext <- new_AudioContext 24000 ;;
     modify (with_outputAudioContextRef (Some outputAudioContext)) ;;
     p <- fresh ;;
     emit (LiveConnect p) ;;
     modify (with_sessionPromiseRef (Some p)))
    (fun _error =>
       console_error "Failed to start chat:" ;;
       setStatus ERROR ;;
       cleanup).

(** [onopen] (lines 168-185). *)
Definition onopen : M unit :=
  source <- fresh ;;
  scriptProcessor <- fresh ;;
  emit (NodeConnect source) ;;
  emit (NodeConnect scriptProcessor) ;;
  modify (with_inputAudioProcessorRef (Some (source, scriptProcessor))) ;;
  setStatus CONNECTED.

(** [scriptProcessor.onaudioprocess] (lines 172-180); [pcmBlob] is the
    result of [createBlob(inputData)]. *)
Definition onaudioprocess (pcmBlob : string) : M unit :=
  promise <- gets sessionPromiseRef ;;
  match promise with
  | Some p => promise_then p (SendRealtimeInput pcmBlob)
  | None => ret tt
  end.

(** [message.serverContent?.modelTurn?.parts[0]?.inlineData?.data] (line
    187).  An optional link that is missing ends the chain with
    [undefined]; [parts] is indexed without one, so a turn that has no
    [parts] makes the expression throw. *)
Definition audioData_of (message : LiveServerMessage) : Outcome (option string) :=
  match serverContent message with
  | Some content =>
      match modelTurn content with
      | Some turn =>
          match parts turn with
          | Some (part :: _) =>
              match inlineData part with
              | Some blob => Returned (data blob)
              | None => Returned None
              end
          | Some [] => Returned None
          | None => Thrown TypeError
          end
      | None => Returned None
      end
  | None => Returned None
  end.

(** [message.serverContent?.interrupted], as a condition. *)
Definition interrupted_of (message : LiveServerMessage) : bool :=
  match serverContent message with
  | Some content =>
      match interrupted content with
      | Some b => b
      | None => false
      end
  | None => false
  end.

(** The listener added to a source for ['ended'] (lines 197-199). *)
Definition onended (source : AudioBufferSourceNode) : M unit :=
  modify (fun w => with_playingSourcesRef (set_delete source (playingSourcesRef w)) w).

(** The body of the first [if] of [onmessage] up to its [await] (lines
    189-192); [currentTime] is [outputAudioContext.currentTime] as the
    handler reads it.  The result is the buffer the [await] is to yield.
    A payload that cannot be decoded ends the handler at line 192, by the
    exception of [decode] before the [await] or by the rejection at the
    [await]: no statement of the handler runs after either, so the failure
    is placed here. *)
Definition onmessage_audio_begin (audioData : string) (currentTime : Z)
    : M AudioBuffer :=
  cursor <- gets nextStartTimeRef ;;
  modify (with_nextStartTimeRef (Z.max cursor currentTime)) ;;
  match decodeAudioData audioData with
  | Some b => ret b
  | None => throw MalformedFrame
  end.

(** The same body from the [await] on (lines 193-203), run when the
    promise has yielded [audioBuffer]: whatever other handlers ran in the
    meantime have left the refs as this part finds them. *)
Definition onmessage_audio_resume (audioBuffer : AudioBuffer) : M unit :=
  source <- fresh ;;                        (* createBufferSource *)
  emit (NodeConnect source) ;;              (* source.connect(destination) *)
  startAt <- gets nextStartTimeRef ;;
  emit (SourceStart source audioBuffer startAt) ;;
  modify (with_nextStartTimeRef (startAt + duration audioBuffer)) ;;
  modify (fun w => with_playingSourcesRef (set_add source (playingSourcesRef w)) w).

(** The two parts back to back: the body of the first [if] in a run of
    the handler during whose [await] no other handler runs. *)
Definition onmessage_audio (audioData : string) (currentTime : Z) : M unit :=
  audioBuffer <- onmessage_audio_begin audioData currentTime ;;
  onmessage_audio_resume audioBuffer.

(** The body of the second [if] of [onmessage] (lines 207-209). *)
Definition onmessage_interrupted : M unit :=
  playing <- gets playingSourcesRef ;;
  forEach playing source_stop ;;
  modify (with_playingSourcesRef []) ;;
  modify (with_nextStartTimeRef 0).

(** [onmessage] from its call to the point where it gives up control: the
    [await] of line 192 when the first [if] is taken (the result is then
    [true]), the end of the handler when it is not. *)
Definition onmessage_arrives (message : LiveServerMessage) (currentTime : Z)
    : M bool :=
  audioData <- evaluate (audioData_of message) ;;
  octx <- gets outputAudioContextRef ;;
  match audioData, octx with
  | Some payload, Some _ =>
      if truthy (Some payload) then
        onmessage_audio_begin payload currentTime ;;
        ret true
      else
        when (interrupted_of message) onmessage_interrupted ;;
        ret false
  | _, _ =>
      when (interrupted_of message) onmessage_interrupted ;;
      ret false
  end.

(** [onmessage] from the [await] of line 192 to its end, for a run that
    was handed [message]: the rest of the first [if], then the second.
    The output context is the one the run read before the [await]; it is
    not looked up again. *)
Definition onmessage_resumes (message : LiveServerMessage) : M unit :=
  match audioData_of message with
  | Returned (Some payload) =>
      match truthy (Some payload), decodeAudioData payload with
      | true, Some audioBuffer =>
          onmessage_audio_resume audioBuffer ;;
          when (interrupted_of message) onmessage_interrupted
      | _, _ => ret tt
      end
  | _ => ret tt
  end.

(** [onmessage] (lines 186-211), in a run during whose [await] no other
    handler runs. *)
Definition onmessage (message : LiveServerMessage) (currentTime : Z) : M unit :=
  awaits <- onmessage_arrives message currentTime ;;
  if awaits then onmessage_resumes message else ret tt.

(** [onerror] (lines 212-216). *)
Definition onerror : M unit :=
  console_error "Gemini Live API Error:" ;;
  setStatus ERROR ;;
  cleanup.

(** [onclose] (lines 217-221): a functional update of the status. *)
Definition onclose : M unit :=
  modify (fun w =>
    with_status
      (match status w with
       | CONNECTED | CONNECTING => DISCONNECTED
       | prev => prev
       end) w).

(** [handleStop] (lines 232-235). *)
Definition handleStop : M unit :=
  setStatus DISCONNECTED ;;
  cleanup.

(** [handleNext] (lines 237-243); the timer later fires [startChat]. *)
Definition handleNext : M unit :=
  setStatus DISCONNECTED ;;
  emit (SetTimeout 100).

(** ** Events *)

(** The promise jobs run once a handler has returned: every queued
    reaction whose promise is resolved is called, in the order of
    registration; the others stay queued. *)
Fixpoint run_reactions (done : list SessionPromise)
    (queue : list (SessionPromise * Reaction))
    : list Effect * list (SessionPromise * Reaction) :=
  match queue with
  | [] => ([], [])
  | (p, r) :: rest =>
      let (effects, kept) := run_reactions done rest in
      if existsb (Nat.eqb p) done then
        (match r with
         | SendRealtimeInput media => SessionSend p media
         | Close => SessionClose p
         end :: effects, kept)
      else (effects, (p, r) :: kept)
  end.

Definition run_jobs (w : World) : World :=
  let (effects, kept) := run_reactions (resolved w) (reactions w) in
  with_reactions kept (with_trace (trace w ++ effects) w).

Inductive Event : Type :=
  | Start                                         (* onStart, or the timer of handleNext *)
  | UserMediaSettled (granted : bool)
  | Open
  | AudioProcess (pcmBlob : string)
  | Message (message : LiveServerMessage) (currentTime : Z)
  | Failure                                       (* onerror *)
  | Closed                                        (* onclose *)
  | Stop
  | Next
  | Ended (source : AudioBufferSourceNode)
  | Resolved (p : SessionPromise)                 (* the promise of ai.live.connect resolves *)
  | Unmount
  | Arrives (message : LiveServerMessage) (currentTime : Z)
  | Resumes (message : LiveServerMessage).

(** [Message] is a run of [onmessage] that nothing interleaves with.  A
    run that other handlers do interleave with is two events: [Arrives],
    from the call to the [await], and [Resumes], the continuation of a run
    that was handed that message, once its buffer is decoded.  Nothing
    forces the [Resumes] events of a list to match its [Arrives] events:
    what is proved of every list of events holds of those in which they
    do. *)
Definition handler (e : Event) : M unit :=
  match e with
  | Start => startChat_begin
  | UserMediaSettled granted => startChat_resume granted
  | Open => onopen
  | AudioProcess pcmBlob => onaudioprocess pcmBlob
  | Message message currentTime => onmessage message currentTime
  | Failure => onerror
  | Closed => onclose
  | Stop => handleStop
  | Next => handleNext
  | Ended source => onended source
  | Resolved p => modify (fun w => with_resolved (p :: resolved w) w)
  | Unmount => cleanup
  | Arrives message currentTime => onmessage_arrives message currentTime ;; ret tt
  | Resumes message => onmessage_resumes message
  end.

(** One turn of the event loop: the handler, then the promise jobs.  An
    exception that escapes a handler ends that handler only. *)
Definition step (w : World) (e : Event) : World :=
  run_jobs (snd (handler e w)).

Definition run (w : World) (events : list Event) : World :=
  fold_left step events w.

End App.

(** ** Reading a world and its trace *)

(** The times passed to [source.start], oldest first. *)
Fixpoint startTimes (tr : list Effect) : list Z :=
  match tr with
  | [] => []
  | SourceStart _ _ t :: rest => t :: startTimes rest
  | _ :: rest => startTimes rest
  end.

(** What the component wrote to the console. *)
Fixpoint logged (tr : list Effect) : list string :=
  match tr with
  | [] => []
  | ConsoleError label :: rest => label :: logged rest
  | _ :: rest => logged rest
  end.

(** The promises obtained from [ai.live.connect]. *)
Fixpoint connections (tr : list Effect) : list SessionPromise :=
  match tr with
  | [] => []
  | LiveConnect p :: rest => p :: connections rest
  | _ :: rest => connections rest
  end.

(** The audio contexts constructed. *)
Fixpoint contexts (tr : list Effect) : list AudioContext :=
  match tr with
  | [] => []
  | NewAudioContext ctx _ :: rest => ctx :: contexts rest
  | _ :: rest => contexts rest
  end.

(** How many times [getUserMedia] was called. *)
Fixpoint mediaRequests (tr : list Effect) : nat :=
  match tr with
  | [] => O
  | GetUserMedia :: rest => S (mediaRequests rest)
  | _ :: rest => mediaRequests rest
  end.

(** The call a reaction makes on the session of promise [p]. *)
Definition call_of (p : SessionPromise) (r : Reaction) : Effect :=
  match r with
  | SendRealtimeInput media => SessionSend p media
  | Close => SessionClose p
  end.

(** The calls made on the session of promise [p]. *)
Fixpoint session_calls (p : SessionPromise) (tr : list Effect) : list Effect :=
  match tr with
  | [] => []
  | SessionSend q media :: rest =>
      if Nat.eqb q p then SessionSend q media :: session_calls p rest
      else session_calls p rest
  | SessionClose q :: rest =>
      if Nat.eqb q p then SessionClose q :: session_calls p rest
      else session_calls p rest
  | _ :: rest => session_calls p rest
  end.

(** The reactions waiting on promise [p], in the order of registration. *)
Fixpoint queued_on (p : SessionPromise) (queue : list (SessionPromise * Reaction))
    : list Reaction :=
  match queue with
  | [] => []
  | (q, r) :: rest =>
      if Nat.eqb q p then r :: queued_on p rest else queued_on p rest
  end.

(** Whether an event is the resolution of promise [p]. *)
Definition resolves (p : SessionPromise) (e : Event) : bool :=
  match e with
  | Resolved q => Nat.eqb q p
  | _ => false
  end.

(** The payload the first [if] of [onmessage] lets through in world [w]:
    the message has one, it is not empty, and the output context exists. *)
Definition audio_to_play (message : LiveServerMessage) (w : World) : option string :=
  match audioData_of message, outputAudioContextRef w with
  | Returned (Some audioData), Some _ =>
      if truthy (Some audioData) then Some audioData else None
  | _, _ => None
  end.

(** The buffer the continuation of a run handed [message] receives from
    its [await], if that run has one. *)
Definition resumed_with (decodeAudioData : string -> option AudioBuffer)
    (message : LiveServerMessage) : option AudioBuffer :=
  match audioData_of message with
  | Returned (Some payload) =>
      if truthy (Some payload) then decodeAudioData payload else None
  | _ => None
  end.

(** Whether an event belongs to the handling of a message that does not
    signal an interruption, or is the natural end of a source. *)
Definition enqueues_only (e : Event) : bool :=
  match e with
  | Message message _ | Arrives message _ | Resumes message =>
      negb (interrupted_of message)
  | Ended _ => true
  | _ => false
  end.

(** Every resource handle is null, and the set of playing sources empty. *)
Definition released (w : World) : Prop :=
  localStreamRef w = None
  /\ sessionPromiseRef w = None
  /\ inputAudioProcessorRef w = None
  /\ playingSourcesRef w = []
  /\ outputAudioContextRef w = None.

(** The calls [cleanup] makes in world [w], block by block: the tracks of
    the stream, the two capture nodes, the playing sources, the output
    context unless closed. *)
Definition cleanup_calls (w : World) : list Effect :=
  match localStreamRef w with Some s => [TrackStop s] | None => [] end
  ++ match inputAudioProcessorRef w with
     | Some (source, processor) =>
         [NodeDisconnect processor; NodeDisconnect source]
     | None => []
     end
  ++ map SourceStop (playingSourcesRef w)
  ++ match outputAudioContextRef w with
     | Some ctx =>
         if existsb (Nat.eqb ctx) (closedContexts w) then []
         else [ContextClose ctx]
     | None => []
     end.

(** The reaction [cleanup] registers in world [w]: the close of the
    session, on the promise the ref holds. *)
Definition cleanup_reactions (w : World) : list (SessionPromise * Reaction) :=
  match sessionPromiseRef w with
  | Some p => [(p, Close)]
  | None => []
  end.

(** The sources passed [start] and the sources passed [stop], oldest
    first. *)
Fixpoint started_sources (tr : list Effect) : list AudioBufferSourceNode :=
  match tr with
  | [] => []
  | SourceStart source _ _ :: rest => source :: started_sources rest
  | _ :: rest => started_sources rest
  end.

Fixpoint stopped_sources (tr : list Effect) : list AudioBufferSourceNode :=
  match tr with
  | [] => []
  | SourceStop source :: rest => source :: stopped_sources rest
  | _ :: rest => stopped_sources rest
  end.

(** The audio contexts constructed at a given sample rate, and the
    contexts on which [close] was called. *)
Fixpoint contexts_at (rate : Z) (tr : list Effect) : list AudioContext :=
  match tr with
  | [] => []
  | NewAudioContext ctx sampleRate :: rest =>
      if Z.eqb sampleRate rate then ctx :: contexts_at rate rest
      else contexts_at rate rest
  | _ :: rest => contexts_at rate rest
  end.

Fixpoint context_closes (tr : list Effect) : list AudioContext :=
  match tr with
  | [] => []
  | ContextClose ctx :: rest => ctx :: context_closes rest
  | _ :: rest => context_closes rest
  end.

(** The streams whose tracks were stopped. *)
Fixpoint stopped_streams (tr : list Effect) : list MediaStream :=
  match tr with
  | [] => []
  | TrackStop stream :: rest => stream :: stopped_streams rest
  | _ :: rest => stopped_streams rest
  end.

(** Whether an event is a handler that begins or consists of [cleanup]:
    [startChat], [handleStop], [onerror], the unmount effect. *)
Definition tears_down (e : Event) : bool :=
  match e with
  | Start | Stop | Failure | Unmount => true
  | _ => false
  end.

(** The discipline the playing set is kept under, told of the set, the
    sources started so far, the sources stopped so far and the next serial
    number: the set has no duplicate and holds sources that were started
    and not stopped; no source was started or stopped twice, and only
    started sources were stopped. *)
Definition sources_ok (playing started stopped : list AudioBufferSourceNode)
    (next : nat) : Prop :=
  NoDup playing
  /\ (forall s, In s playing -> In s started /\ ~ In s stopped)
  /\ (forall s, In s started -> (s < next)%nat)
  /\ NoDup started
  /\ NoDup stopped
  /\ incl stopped started.

(** The same for the audio contexts, told of the output ref, the contexts
    known to be closed, the contexts [close] was called on, the contexts
    built at 16 kHz and at 24 kHz and the next serial number. *)
Definition contexts_ok (ref : option AudioContext)
    (closed closes low high : list AudioContext) (next : nat) : Prop :=
  (forall c, In c low \/ In c high -> (c < next)%nat)
  /\ (forall c, ref = Some c -> In c high)
  /\ (forall c, In c closed <-> In c closes)
  /\ NoDup closes
  /\ incl closes high
  /\ (forall c, In c low -> ~ In c high).

(** And for the media stream, told of the [localStream] state, the ref,
    the streams stopped so far and the next serial number: the state shows
    the stream the ref holds, a stream that is held has not been stopped,
    and no stream was stopped twice. *)
Definition streams_ok (shown held : option MediaStream)
    (stopped : list MediaStream) (next : nat) : Prop :=
  shown = held
  /\ (forall s, held = Some s -> (s < next)%nat /\ ~ In s stopped)
  /\ (forall s, In s stopped -> (s < next)%nat)
  /\ NoDup stopped.

Definition streams_consistent (w : World) : Prop :=
  streams_ok (localStream w) (localStreamRef w)
    (stopped_streams (trace w)) (nextId w).

Definition sources_consistent (w : World) : Prop :=
  sources_ok (playingSourcesRef w) (started_sources (trace w))
    (stopped_sources (trace w)) (nextId w).

Definition contexts_consistent (w : World) : Prop :=
  contexts_ok (outputAudioContextRef w) (closedContexts w)
    (context_closes (trace w)) (contexts_at 16000 (trace w))
    (contexts_at 24000 (trace w)) (nextId w).

(** ** The controls *)

(** The three callbacks [App] hands to [Controls] (line 265). *)
Inductive Click : Type := OnStart | OnStop | OnNext.

(** What a rendered [<button>] amounts to. *)
Record Button : Type := mkButton {
  caption : string;
  onClick : Click;
  disabled : bool
}.

Definition status_eqb (a b : ChatStatus) : bool :=
  match a, b with
  | IDLE, IDLE | CONNECTING, CONNECTING | CONNECTED, CONNECTED
  | DISCONNECTED, DISCONNECTED | ERROR, ERROR => true
  | _, _ => false
  end.

(** [getStatusText] (lines 52-65). *)
Definition getStatusText (status : ChatStatus) : string :=
  match status with
  | CONNECTING => "Connecting..."
  | CONNECTED => "Connected! You are now chatting."
  | DISCONNECTED => "Chat ended."
  | ERROR => "Connection error. Please try again."
  | _ => "Press Start to find a chat partner."
  end.

(** [isChatting], computed alike in [Controls] (line 67) and for
    [VideoFeed] (line 261). *)
Definition isChatting (status : ChatStatus) : bool :=
  status_eqb status CONNECTED || status_eqb status CONNECTING.

(** The buttons [Controls] renders (lines 72-87). *)
Definition Controls (status : ChatStatus) : list Button :=
  if status_eqb status IDLE || status_eqb status DISCONNECTED
     || status_eqb status ERROR
  then
    [mkButton (if status_eqb status CONNECTING then "Starting..." else "Start")
       OnStart (status_eqb status CONNECTING)]
  else
    [mkButton "Stop" OnStop false;
     mkButton "Next" OnNext (negb (status_eqb status CONNECTED))].

(** The event a click raises: [onStart={startChat}], [onStop={handleStop}],
    [onNext={handleNext}]. *)
Definition click (c : Click) : Event :=
  match c with
  | OnStart => Start
  | OnStop => Stop
  | OnNext => Next
  end.

(** ** Sample inputs *)

(** A decoder for the examples: the characters of the payload stand for
    the decoded bytes, two to a 16-bit frame, and a payload with an odd
    number of bytes is malformed. *)
Definition sample_decoder (payload : string) : option AudioBuffer :=
  let n := String.length payload in
  if Nat.even n then Some (mkAudioBuffer (N.of_nat (Nat.div2 n))) else None.

(** A message that carries one inline audio part. *)
Definition audio_message (payload : string) : LiveServerMessage :=
  mkMessage (Some (mkServerContent
    (Some (mkContent (Some [mkPart (Some (mkBlob (Some payload)))]))) None)).

(** A message that only signals an interruption. *)
Definition interruption_message : LiveServerMessage :=
  mkMessage (Some (mkServerContent None (Some true))).

(** A message that carries one inline audio part and signals an
    interruption. *)
Definition audio_interruption_message (payload : string) : LiveServerMessage :=
  mkMessage (Some (mkServerContent
    (Some (mkContent (Some [mkPart (Some (mkBlob (Some payload)))])))
    (Some true))).

(** A message whose turn has no [parts], with the interruption flag set. *)
Definition partless_message : LiveServerMessage :=
  mkMessage (Some (mkServerContent (Some (mkContent None)) (Some true))).

(** A session brought up from the mounted component: start, devices
    granted, connection opened and resolved.  The stream is object 0, the
    input and output contexts 1 and 2, the session promise 3, the capture
    nodes 4 and 5. *)
Definition connected : World :=
  run (Some "key"%string) sample_decoder initial
    [Start; UserMediaSettled true; Open; Resolved 3%nat].

(** The same session with two buffers of four and two frames scheduled. *)
Definition playing_two : World :=
  run (Some "key"%string) sample_decoder connected
    [Message (audio_message "12345678") 10; Message (audio_message "1234") 11].

(** * Properties *)

(** Splitting a conjunction without unfolding what it is made of. *)
Ltac splits := repeat match goal with |- _ /\ _ => split end.

(** Evaluation of a command on a world whose shape is known. *)
Ltac run_cmd :=
  cbv beta iota zeta delta
    [bind gets modify ret when throw try_catch emit fresh setStatus
     setLocalStream console_error promise_then new_AudioContext source_stop
     with_status with_localStream with_sessionPromiseRef with_localStreamRef
     with_outputAudioContextRef with_nextStartTimeRef with_playingSourcesRef
     with_inputAudioProcessorRef with_closedContexts with_resolved
     with_reactions with_nextId with_trace
     status localStream sessionPromiseRef localStreamRef
     outputAudioContextRef nextStartTimeRef playingSourcesRef
     inputAudioProcessorRef closedContexts resolved reactions nextId trace
     fst snd negb].

(** ** Traces *)

Section Observers.

Lemma startTimes_app (l1 l2 : list Effect) :
  startTimes (l1 ++ l2) = startTimes l1 ++ startTimes l2.
Proof.
  induction l1 as [|e l1 IH]; [reflexivity|].
  destruct e; simpl; rewrite IH; reflexivity.
Qed.

Lemma logged_app (l1 l2 : list Effect) :
  logged (l1 ++ l2) = logged l1 ++ logged l2.
Proof.
  induction l1 as [|e l1 IH]; [reflexivity|].
  destruct e; simpl; rewrite IH; reflexivity.
Qed.

Lemma connections_app (l1 l2 : list Effect) :
  connections (l1 ++ l2) = connections l1 ++ connections l2.
Proof.
  induction l1 as [|e l1 IH]; [reflexivity|].
  destruct e; simpl; rewrite IH; reflexivity.
Qed.

Lemma contexts_app (l1 l2 : list Effect) :
  contexts (l1 ++ l2) = contexts l1 ++ contexts l2.
Proof.
  induction l1 as [|e l1 IH]; [reflexivity|].
  destruct e; simpl; rewrite IH; reflexivity.
Qed.

Lemma mediaRequests_app (l1 l2 : list Effect) :
  mediaRequests (l1 ++ l2) = (mediaRequests l1 + mediaRequests l2)%nat.
Proof.
  induction l1 as [|e l1 IH]; [reflexivity|].
  destruct e; simpl; rewrite IH; reflexivity.
Qed.

Lemma session_calls_app (p : SessionPromise) (l1 l2 : list Effect) :
  session_calls p (l1 ++ l2) = session_calls p l1 ++ session_calls p l2.
Proof.
  induction l1 as [|e l1 IH]; [reflexivity|].
  destruct e; simpl; try (destruct (Nat.eqb _ p); simpl); rewrite IH; reflexivity.
Qed.

Lemma queued_on_app (p : SessionPromise) (q1 q2 : list (SessionPromise * Reaction)) :
  queued_on p (q1 ++ q2) = queued_on p q1 ++ queued_on p q2.
Proof.
  induction q1 as [|[q r] q1 IH]; [reflexivity|].
  simpl. destruct (Nat.eqb q p); simpl; rewrite IH; reflexivity.
Qed.

(** Stopping sources starts none, logs nothing and calls no session. *)
Lemma startTimes_stops (l : list AudioBufferSourceNode) :
  startTimes (map SourceStop l) = [].
Proof. induction l; simpl; auto. Qed.

Lemma logged_stops (l : list AudioBufferSourceNode) :
  logged (map SourceStop l) = [].
Proof. induction l; simpl; auto. Qed.

Lemma session_calls_stops (p : SessionPromise) (l : list AudioBufferSourceNode) :
  session_calls p (map SourceStop l) = [].
Proof. induction l; simpl; auto. Qed.

End Observers.

(** ** The promise jobs *)

Section Jobs.

(** The jobs only call sessions. *)
Lemma run_reactions_quiet (done : list SessionPromise)
    (queue : list (SessionPromise * Reaction)) :
  let effects := fst (run_reactions done queue) in
  startTimes effects = [] /\ logged effects = []
  /\ connections effects = [] /\ contexts effects = []
  /\ mediaRequests effects = O.
Proof.
  induction queue as [|[p r] queue IH]; simpl; [repeat split|].
  destruct (run_reactions done queue) as [effects kept]; simpl in *.
  destruct (existsb (Nat.eqb p) done); simpl; [|exact IH].
  destruct r; simpl; exact IH.
Qed.

(** On the session of [p] the jobs make the queued calls when [p] is
    resolved, and none otherwise. *)
Lemma run_reactions_calls (p : SessionPromise) (done : list SessionPromise)
    (queue : list (SessionPromise * Reaction)) :
  session_calls p (fst (run_reactions done queue))
  = if existsb (Nat.eqb p) done then map (call_of p) (queued_on p queue) else [].
Proof.
  induction queue as [|[q r] queue IH]; simpl.
  - destruct (existsb (Nat.eqb p) done); reflexivity.
  - destruct (run_reactions done queue) as [effects kept]; simpl in *.
    destruct (Nat.eqb_spec q p) as [->|Hqp].
    + destruct (existsb (Nat.eqb p) done); simpl; [|exact IH].
      destruct r; simpl; rewrite Nat.eqb_refl, IH; reflexivity.
    + destruct (existsb (Nat.eqb q) done); simpl; [|exact IH].
      apply Nat.eqb_neq in Hqp.
      destruct r; simpl; rewrite Hqp; exact IH.
Qed.

(** What stays queued on [p]: everything while [p] is pending, nothing
    once it is resolved. *)
Lemma run_reactions_kept (p : SessionPromise) (done : list SessionPromise)
    (queue : list (SessionPromise * Reaction)) :
  queued_on p (snd (run_reactions done queue))
  = if existsb (Nat.eqb p) done then [] else queued_on p queue.
Proof.
  induction queue as [|[q r] queue IH]; simpl.
  - destruct (existsb (Nat.eqb p) done); reflexivity.
  - destruct (run_reactions done queue) as [effects kept]; simpl in *.
    destruct (Nat.eqb_spec q p) as [->|Hqp].
    + destruct (existsb (Nat.eqb p) done); simpl; [exact IH|].
      rewrite Nat.eqb_refl, IH. reflexivity.
    + apply Nat.eqb_neq in Hqp.
      destruct (existsb (Nat.eqb q) done); simpl; [exact IH|].
      rewrite Hqp. exact IH.
Qed.

(** The jobs touch the queue and the trace only. *)
Lemma run_jobs_frame (w : World) :
  let w' := run_jobs w in
  status w' = status w /\ localStream w' = localStream w
  /\ sessionPromiseRef w' = sessionPromiseRef w
  /\ localStreamRef w' = localStreamRef w
  /\ outputAudioContextRef w' = outputAudioContextRef w
  /\ nextStartTimeRef w' = nextStartTimeRef w
  /\ playingSourcesRef w' = playingSourcesRef w
  /\ inputAudioProcessorRef w' = inputAudioProcessorRef w
  /\ closedContexts w' = closedContexts w
  /\ resolved w' = resolved w /\ nextId w' = nextId w.
Proof.
  unfold run_jobs. destruct (run_reactions (resolved w) (reactions w)).
  simpl. repeat split.
Qed.

Lemma run_jobs_trace (w : World) :
  trace (run_jobs w) = trace w ++ fst (run_reactions (resolved w) (reactions w)).
Proof.
  unfold run_jobs. destruct (run_reactions (resolved w) (reactions w)).
  reflexivity.
Qed.

Lemma run_jobs_reactions (w : World) :
  reactions (run_jobs w) = snd (run_reactions (resolved w) (reactions w)).
Proof.
  unfold run_jobs. destruct (run_reactions (resolved w) (reactions w)).
  reflexivity.
Qed.

Lemma run_jobs_startTimes (w : World) :
  startTimes (trace (run_jobs w)) = startTimes (trace w).
Proof.
  rewrite run_jobs_trace, startTimes_app.
  destruct (run_reactions_quiet (resolved w) (reactions w)) as [H _].
  simpl in H. rewrite H. apply app_nil_r.
Qed.

Lemma run_jobs_logged (w : World) :
  logged (trace (run_jobs w)) = logged (trace w).
Proof.
  rewrite run_jobs_trace, logged_app.
  destruct (run_reactions_quiet (resolved w) (reactions w)) as (_ & H & _).
  simpl in H. rewrite H. apply app_nil_r.
Qed.

End Jobs.

(** ** [cleanup] *)

Section Cleanup.

Lemma forEach_stop (l : list AudioBufferSourceNode) (w : World) :
  forEach l source_stop w
  = (Returned tt, with_trace (trace w ++ map SourceStop l) w).
Proof.
  revert w. induction l as [|x l IH]; intros w.
  - simpl. unfold ret. rewrite app_nil_r. destruct w; reflexivity.
  - simpl. unfold bind, source_stop, emit, modify. rewrite IH. simpl.
    rewrite <- app_assoc. reflexivity.
Qed.

(** [cleanup] always returns, and this is the world it leaves. *)
Lemma cleanup_run (w : World) :
  cleanup w =
  (Returned tt,
   mkWorld (status w)
     (match localStreamRef w with Some _ => None | None => localStream w end)
     None None None 0 [] None
     (match outputAudioContextRef w with
      | Some ctx =>
          if existsb (Nat.eqb ctx) (closedContexts w) then closedContexts w
          else ctx :: closedContexts w
      | None => closedContexts w
      end)
     (resolved w)
     (reactions w
      ++ match sessionPromiseRef w with Some p => [(p, Close)] | None => [] end)
     (nextId w)
     (trace w ++ cleanup_calls w)).
Proof.
  destruct w as [st ls sp lsr oc ns ps ip cc rs rx ni tr].
  unfold cleanup, cleanup_calls.
  destruct lsr as [s|], sp as [p|], ip as [[a b]|], oc as [c|];
    run_cmd; rewrite forEach_stop; run_cmd;
    try destruct (existsb (Nat.eqb c) cc); cbn;
    rewrite ?app_nil_r, <- ?app_assoc; reflexivity.
Qed.

Lemma cleanup_released (w : World) : released (snd (cleanup w)).
Proof. rewrite cleanup_run. repeat split. Qed.

(** With nothing held, [cleanup] has nothing to do. *)
Lemma cleanup_calls_released (w : World) :
  released w -> cleanup_calls w = [].
Proof.
  intros (H1 & _ & H3 & H4 & H5). unfold cleanup_calls.
  rewrite H1, H3, H4, H5. reflexivity.
Qed.

End Cleanup.

(** From here on the handlers are rewritten with their run lemmas and not
    unfolded by simplification. *)
Arguments cleanup : simpl never.
Arguments onmessage_audio_begin : simpl never.
Arguments onmessage_audio_resume : simpl never.
Arguments onmessage_audio : simpl never.
Arguments onmessage_interrupted : simpl never.
Arguments onmessage_arrives : simpl never.
Arguments onmessage_resumes : simpl never.
Arguments onmessage : simpl never.
Arguments startChat_begin : simpl never.
Arguments startChat_resume : simpl never.

(** ** Handlers built on [cleanup] *)

Section Teardown.

Variable API_KEY : option string.
Variable decodeAudioData : string -> option AudioBuffer.

Lemma handleStop_run (w : World) :
  handleStop w = cleanup (with_status DISCONNECTED w).
Proof. reflexivity. Qed.

Lemma onerror_run (w : World) :
  onerror w
  = cleanup (with_status ERROR
      (with_trace (trace w ++ [ConsoleError "Gemini Live API Error:"]) w)).
Proof. reflexivity. Qed.

Lemma onclose_run (w : World) :
  onclose w
  = (Returned tt,
     with_status (match status w with
                  | CONNECTED | CONNECTING => DISCONNECTED
                  | prev => prev
                  end) w).
Proof. reflexivity. Qed.

(** A released world is a fixed point of [cleanup] once the cursor is 0. *)
Lemma cleanup_fixed (w : World) :
  released w -> nextStartTimeRef w = 0 -> cleanup w = (Returned tt, w).
Proof.
  intros Hrel Hcur. rewrite cleanup_run, (cleanup_calls_released w Hrel).
  destruct Hrel as (H1 & H2 & H3 & H4 & H5).
  destruct w; simpl in *; subst. rewrite !app_nil_r. reflexivity.
Qed.

Lemma cleanup_cursor (w : World) : nextStartTimeRef (snd (cleanup w)) = 0.
Proof. rewrite cleanup_run. reflexivity. Qed.

Lemma cleanup_status (w : World) : status (snd (cleanup w)) = status w.
Proof. rewrite cleanup_run. reflexivity. Qed.

Lemma cleanup_returns (w : World) : fst (cleanup w) = Returned tt.
Proof. rewrite cleanup_run. reflexivity. Qed.

Lemma cleanup_trace (w : World) :
  trace (snd (cleanup w)) = trace w ++ cleanup_calls w.
Proof. rewrite cleanup_run. reflexivity. Qed.


Lemma step_cursor (w : World) (e : Event) :
  nextStartTimeRef (step API_KEY decodeAudioData w e)
  = nextStartTimeRef (snd (handler API_KEY decodeAudioData e w)).
Proof. unfold step. apply run_jobs_frame. Qed.

Lemma run_cons (w : World) (e : Event) (events : list Event) :
  run API_KEY decodeAudioData w (e :: events)
  = run API_KEY decodeAudioData (step API_KEY decodeAudioData w e) events.
Proof. reflexivity. Qed.

End Teardown.

(** ** [startChat] and the other handlers, run *)

Section Lifecycle.

Variable API_KEY : option string.
Variable decodeAudioData : string -> option AudioBuffer.

Lemma startChat_begin_run (w : World) :
  startChat_begin w =
  (Returned tt,
   with_trace (trace (snd (cleanup w)) ++ [GetUserMedia])
     (with_status CONNECTING (snd (cleanup w)))).
Proof.
  unfold startChat_begin. run_cmd. rewrite cleanup_run. reflexivity.
Qed.

(** [getUserMedia] rejected: the [catch] block. *)
Lemma startChat_resume_denied (w : World) :
  startChat_resume API_KEY false w =
  cleanup (with_status ERROR
    (with_trace (trace w ++ [ConsoleError "Failed to start chat:"]) w)).
Proof. reflexivity. Qed.

(** The stream was obtained and the key is missing: the [catch] block
    again, with the stream in the refs. *)
Lemma startChat_resume_no_key (w : World) :
  truthy API_KEY = false ->
  startChat_resume API_KEY true w =
  cleanup (with_status ERROR
    (with_trace (trace w ++ [ConsoleError "Failed to start chat:"])
       (with_localStream (Some (nextId w))
          (with_localStreamRef (Some (nextId w))
             (with_nextId (S (nextId w)) w))))).
Proof.
  intros H. unfold startChat_resume. run_cmd. rewrite H. reflexivity.
Qed.

(** The stream was obtained and the key is there: two contexts and the
    connection. *)
Lemma startChat_resume_connects (w : World) :
  truthy API_KEY = true ->
  startChat_resume API_KEY true w =
  (Returned tt,
   mkWorld (status w) (Some (nextId w)) (Some (3 + nextId w)%nat)
     (Some (nextId w)) (Some (2 + nextId w)%nat)
     (nextStartTimeRef w) (playingSourcesRef w) (inputAudioProcessorRef w)
     (closedContexts w) (resolved w) (reactions w) (4 + nextId w)%nat
     (trace w ++ [NewAudioContext (1 + nextId w)%nat 16000;
                  NewAudioContext (2 + nextId w)%nat 24000;
                  LiveConnect (3 + nextId w)%nat])).
Proof.
  intros H. unfold startChat_resume. run_cmd. rewrite H.
  rewrite <- !app_assoc. reflexivity.
Qed.

Lemma onopen_run (w : World) :
  onopen w =
  (Returned tt,
   with_status CONNECTED
     (with_inputAudioProcessorRef (Some (nextId w, S (nextId w)))
        (with_trace (trace w ++ [NodeConnect (nextId w); NodeConnect (S (nextId w))])
           (with_nextId (2 + nextId w)%nat w)))).
Proof.
  unfold onopen. run_cmd. rewrite <- !app_assoc. reflexivity.
Qed.

Lemma onaudioprocess_run (pcmBlob : string) (w : World) :
  onaudioprocess pcmBlob w =
  (Returned tt,
   with_reactions
     (reactions w ++ match sessionPromiseRef w with
                     | Some p => [(p, SendRealtimeInput pcmBlob)]
                     | None => []
                     end) w).
Proof.
  unfold onaudioprocess. run_cmd.
  destruct w as [st ls [p|] lsr oc ns ps ip cc rs rx ni tr]; cbn;
    rewrite ?app_nil_r; reflexivity.
Qed.

(** [cleanup] calls no session, starts and logs nothing, and acquires
    nothing. *)
Lemma cleanup_calls_quiet (w : World) :
  (forall p, session_calls p (cleanup_calls w) = [])
  /\ startTimes (cleanup_calls w) = []
  /\ logged (cleanup_calls w) = []
  /\ connections (cleanup_calls w) = []
  /\ contexts (cleanup_calls w) = []
  /\ mediaRequests (cleanup_calls w) = O.
Proof.
  unfold cleanup_calls.
  destruct (localStreamRef w), (inputAudioProcessorRef w) as [[a b]|],
    (outputAudioContextRef w) as [c|];
    try destruct (existsb (Nat.eqb c) (closedContexts w));
    cbn; splits; intros;
    rewrite ?session_calls_app, ?startTimes_app, ?logged_app,
      ?connections_app, ?contexts_app, ?mediaRequests_app,
      ?session_calls_stops, ?startTimes_stops, ?logged_stops;
    try reflexivity;
    induction (playingSourcesRef w); cbn; auto.
Qed.

(** What [cleanup] leaves of the observations of a trace. *)
Lemma cleanup_observed (w : World) :
  let w' := snd (cleanup w) in
  startTimes (trace w') = startTimes (trace w)
  /\ logged (trace w') = logged (trace w)
  /\ connections (trace w') = connections (trace w)
  /\ contexts (trace w') = contexts (trace w)
  /\ mediaRequests (trace w') = mediaRequests (trace w)
  /\ forall p, session_calls p (trace w') = session_calls p (trace w).
Proof.
  cbv zeta. rewrite cleanup_trace.
  destruct (cleanup_calls_quiet w) as (H1 & H2 & H3 & H4 & H5 & H6).
  rewrite startTimes_app, logged_app, connections_app, contexts_app,
    mediaRequests_app, H2, H3, H4, H5, H6, !app_nil_r, Nat.add_0_r.
  splits; try reflexivity.
  intros p. rewrite session_calls_app, H1, app_nil_r. reflexivity.
Qed.

(** The jobs leave these observations as they are. *)
Lemma run_jobs_observed (w : World) :
  let w' := run_jobs w in
  startTimes (trace w') = startTimes (trace w)
  /\ logged (trace w') = logged (trace w)
  /\ connections (trace w') = connections (trace w)
  /\ contexts (trace w') = contexts (trace w)
  /\ mediaRequests (trace w') = mediaRequests (trace w).
Proof.
  cbv zeta. rewrite run_jobs_trace.
  destruct (run_reactions_quiet (resolved w) (reactions w))
    as (H1 & H2 & H3 & H4 & H5).
  cbv zeta in *.
  rewrite startTimes_app, logged_app, connections_app, contexts_app,
    mediaRequests_app, H1, H2, H3, H4, H5, !app_nil_r, Nat.add_0_r.
  splits; reflexivity.
Qed.

Lemma run_jobs_released (w : World) : released w -> released (run_jobs w).
Proof.
  unfold released.
  destruct (run_jobs_frame w)
    as (_ & _ & Hsp & Hls & Hoc & _ & Hps & Hip & _).
  rewrite Hsp, Hls, Hoc, Hps, Hip. trivial.
Qed.


End Lifecycle.

(** ** The playback scheduler inside [onmessage] *)

Section Scheduler.

Variable API_KEY : option string.
Variable decodeAudioData : string -> option AudioBuffer.

Lemma set_add_In (x : nat) (s : list nat) : In x (set_add x s).
Proof.
  unfold set_add. destruct (existsb (Nat.eqb x) s) eqn:E.
  - apply existsb_exists in E. destruct E as (y & Hy & Hxy).
    apply Nat.eqb_eq in Hxy. subst. exact Hy.
  - apply in_or_app. right. left. reflexivity.
Qed.


Lemma set_delete_not_In (x : nat) (s : list nat) : ~ In x (set_delete x s).
Proof.
  unfold set_delete. intros H. apply filter_In in H. destruct H as [_ H].
  rewrite Nat.eqb_refl in H. discriminate.
Qed.

(** The audio block up to its [await]: the cursor is raised, and a
    malformed payload stops the handler there. *)
Lemma onmessage_audio_begin_run (audioData : string) (t : Z) (w : World) :
  onmessage_audio_begin decodeAudioData audioData t w =
  (match decodeAudioData audioData with
   | Some b => Returned b
   | None => Thrown MalformedFrame
   end,
   with_nextStartTimeRef (Z.max (nextStartTimeRef w) t) w).
Proof.
  unfold onmessage_audio_begin. destruct (decodeAudioData audioData); reflexivity.
Qed.

(** The audio block from its [await] on: the buffer is scheduled at the
    cursor as it is now. *)
Lemma onmessage_audio_resume_run (b : AudioBuffer) (w : World) :
  onmessage_audio_resume b w =
  (Returned tt,
   with_playingSourcesRef (set_add (nextId w) (playingSourcesRef w))
     (with_nextStartTimeRef (nextStartTimeRef w + duration b)
        (with_trace
           (trace w ++ [NodeConnect (nextId w);
                        SourceStart (nextId w) b (nextStartTimeRef w)])
           (with_nextId (S (nextId w)) w)))).
Proof.
  unfold onmessage_audio_resume. run_cmd. rewrite <- app_assoc. reflexivity.
Qed.

(** The audio block with nothing in between: a decoded buffer is
    scheduled, a malformed one stops the handler after the cursor was
    raised. *)
Lemma onmessage_audio_run (audioData : string) (t : Z) (w : World) :
  onmessage_audio decodeAudioData audioData t w =
  match decodeAudioData audioData with
  | Some b =>
      (Returned tt,
       with_playingSourcesRef (set_add (nextId w) (playingSourcesRef w))
         (with_nextStartTimeRef (Z.max (nextStartTimeRef w) t + duration b)
            (with_trace
               (trace w ++ [NodeConnect (nextId w);
                            SourceStart (nextId w) b (Z.max (nextStartTimeRef w) t)])
               (with_nextId (S (nextId w)) w))))
  | None =>
      (Thrown MalformedFrame,
       with_nextStartTimeRef (Z.max (nextStartTimeRef w) t) w)
  end.
Proof.
  unfold onmessage_audio, bind. rewrite onmessage_audio_begin_run.
  destruct (decodeAudioData audioData); [|reflexivity].
  rewrite onmessage_audio_resume_run. reflexivity.
Qed.

Lemma enqueue_startTimes (audioData : string) (b : AudioBuffer) (t : Z) (w : World) :
  decodeAudioData audioData = Some b ->
  startTimes (trace (snd (onmessage_audio decodeAudioData audioData t w)))
  = startTimes (trace w) ++ [Z.max (nextStartTimeRef w) t].
Proof.
  intros H. rewrite onmessage_audio_run, H. cbn.
  rewrite startTimes_app. reflexivity.
Qed.

Lemma onmessage_interrupted_run (w : World) :
  onmessage_interrupted w =
  (Returned tt,
   with_nextStartTimeRef 0
     (with_playingSourcesRef []
        (with_trace (trace w ++ map SourceStop (playingSourcesRef w)) w))).
Proof.
  unfold onmessage_interrupted. run_cmd. rewrite forEach_stop. reflexivity.
Qed.

Lemma audio_to_play_returned (message : LiveServerMessage) (a : string) (w : World) :
  audio_to_play message w = Some a ->
  audioData_of message = Returned (Some a) /\ truthy (Some a) = true
  /\ outputAudioContextRef w <> None.
Proof.
  unfold audio_to_play.
  destruct (audioData_of message) as [[x|]|err]; try discriminate.
  destruct (outputAudioContextRef w); try discriminate.
  destruct (truthy (Some x)) eqn:E; try discriminate.
  intros H. inversion H. subst. splits; [reflexivity | exact E | discriminate].
Qed.

(** [onmessage] up to the point where it gives up control: a message
    whose turn has no [parts] throws before anything is done; with audio
    to play the cursor is raised and the run waits for the decoder, unless
    the payload is malformed; otherwise the second [if] runs. *)
Lemma onmessage_arrives_run (message : LiveServerMessage) (t : Z) (w : World) :
  onmessage_arrives decodeAudioData message t w =
  match audioData_of message with
  | Thrown e => (Thrown e, w)
  | Returned _ =>
      match audio_to_play message w with
      | Some audioData =>
          (match decodeAudioData audioData with
           | Some _ => Returned true
           | None => Thrown MalformedFrame
           end,
           with_nextStartTimeRef (Z.max (nextStartTimeRef w) t) w)
      | None =>
          (Returned false,
           snd (when (interrupted_of message) onmessage_interrupted w))
      end
  end.
Proof.
  destruct w as [st ls sp lsr oc ns ps ip cc rs rx ni tr].
  unfold onmessage_arrives, audio_to_play, bind, gets, evaluate. simpl.
  destruct (audioData_of message) as [[[|ch a]|]|err], oc as [c|];
    try reflexivity;
    try (destruct (interrupted_of message); cbv beta iota delta [when ret];
         [rewrite onmessage_interrupted_run|]; reflexivity).
  rewrite onmessage_audio_begin_run.
  destruct (decodeAudioData (String ch a)); reflexivity.
Qed.

(** The continuation of a run: its buffer is scheduled, then the second
    [if] runs. *)
Lemma onmessage_resumes_run (message : LiveServerMessage) (w : World) :
  onmessage_resumes decodeAudioData message w =
  match resumed_with decodeAudioData message with
  | Some b =>
      when (interrupted_of message) onmessage_interrupted
        (snd (onmessage_audio_resume b w))
  | None => (Returned tt, w)
  end.
Proof.
  unfold onmessage_resumes, resumed_with.
  destruct (audioData_of message) as [[a|]|err]; try reflexivity.
  destruct (truthy (Some a)); [|reflexivity].
  destruct (decodeAudioData a) as [b|]; [|reflexivity].
  unfold bind. rewrite onmessage_audio_resume_run. reflexivity.
Qed.

Lemma audio_to_play_resumed (message : LiveServerMessage) (a : string) (w : World) :
  audio_to_play message w = Some a ->
  resumed_with decodeAudioData message = decodeAudioData a.
Proof.
  intros H. destruct (audio_to_play_returned _ _ _ H) as (H1 & H2 & _).
  unfold resumed_with. rewrite H1, H2. reflexivity.
Qed.

(** [onmessage] is its two blocks under their conditions, after the
    payload was read. *)
Lemma onmessage_run (message : LiveServerMessage) (t : Z) (w : World) :
  onmessage decodeAudioData message t w =
  match audioData_of message with
  | Thrown e => (Thrown e, w)
  | Returned _ =>
      match audio_to_play message w with
      | Some audioData =>
          match onmessage_audio decodeAudioData audioData t w with
          | (Returned _, w1) => when (interrupted_of message) onmessage_interrupted w1
          | (Thrown e, w1) => (Thrown e, w1)
          end
      | None => when (interrupted_of message) onmessage_interrupted w
      end
  end.
Proof.
  unfold onmessage, bind. rewrite onmessage_arrives_run.
  destruct (audioData_of message) as [x|err] eqn:Hdata; [|reflexivity].
  destruct (audio_to_play message w) as [a|] eqn:Hplay.
  - rewrite onmessage_audio_run.
    destruct (decodeAudioData a) as [b|] eqn:Hdec; [|reflexivity].
    rewrite onmessage_resumes_run, (audio_to_play_resumed _ _ _ Hplay), Hdec,
      onmessage_audio_resume_run.
    reflexivity.
  - destruct (interrupted_of message); cbv beta iota delta [when ret];
      [rewrite onmessage_interrupted_run|]; reflexivity.
Qed.

Lemma onmessage_plays (message : LiveServerMessage) (a : string) (t : Z) (w : World) :
  audio_to_play message w = Some a ->
  onmessage decodeAudioData message t w =
  match onmessage_audio decodeAudioData a t w with
  | (Returned _, w1) => when (interrupted_of message) onmessage_interrupted w1
  | (Thrown e, w1) => (Thrown e, w1)
  end.
Proof.
  intros H. rewrite onmessage_run, H.
  destruct (audio_to_play_returned _ _ _ H) as (H1 & _). rewrite H1. reflexivity.
Qed.

(** The world an [Arrives] event leaves. *)
Lemma handler_arrives (message : LiveServerMessage) (t : Z) (w : World) :
  snd ((onmessage_arrives decodeAudioData message t ;; ret tt) w) =
  match audioData_of message with
  | Thrown _ => w
  | Returned _ =>
      match audio_to_play message w with
      | Some _ => with_nextStartTimeRef (Z.max (nextStartTimeRef w) t) w
      | None => snd (when (interrupted_of message) onmessage_interrupted w)
      end
  end.
Proof.
  unfold bind. rewrite onmessage_arrives_run.
  destruct (audioData_of message) as [x|err]; [|reflexivity].
  destruct (audio_to_play message w) as [a|]; [|reflexivity].
  destruct (decodeAudioData a); reflexivity.
Qed.

Lemma onmessage_uninterrupted (message : LiveServerMessage) (t : Z) (w : World) :
  interrupted_of message = false ->
  onmessage decodeAudioData message t w =
  match audioData_of message with
  | Thrown e => (Thrown e, w)
  | Returned _ =>
      match audio_to_play message w with
      | Some audioData => onmessage_audio decodeAudioData audioData t w
      | None => (Returned tt, w)
      end
  end.
Proof.
  intros H. rewrite onmessage_run, H.
  destruct (audioData_of message) as [x|err]; [|reflexivity].
  destruct (audio_to_play message w) as [a|]; [|reflexivity].
  destruct (onmessage_audio decodeAudioData a t w) as [[[]|e] w1]; reflexivity.
Qed.

Lemma duration_nonneg (b : AudioBuffer) : 0 <= duration b.
Proof. unfold duration. lia. Qed.

(** One event of the handling of messages without the interruption flag:
    at most one start, at or after the cursor it found, and the cursor
    moves past it. *)
Lemma enqueue_step_starts (e : Event) (w : World) :
  enqueues_only e = true ->
  let w' := step API_KEY decodeAudioData w e in
  exists new,
    startTimes (trace w') = startTimes (trace w) ++ new
    /\ Forall (fun s => nextStartTimeRef w <= s <= nextStartTimeRef w') new
    /\ Sorted Z.le new
    /\ nextStartTimeRef w <= nextStartTimeRef w'.
Proof.
  intros H w'. subst w'. rewrite step_cursor. unfold step.
  rewrite run_jobs_startTimes.
  assert (Hnone : forall v : World,
            exists new : list Z,
              startTimes (trace v) = startTimes (trace v) ++ new
              /\ Forall (fun s => nextStartTimeRef v <= s <= nextStartTimeRef v) new
              /\ Sorted Z.le new
              /\ nextStartTimeRef v <= nextStartTimeRef v).
  { intros v. exists []. rewrite app_nil_r. splits; try constructor. lia. }
  destruct e; try discriminate H; cbn in H; apply negb_true_iff in H || clear H.
  - cbn [handler]. rewrite (onmessage_uninterrupted _ _ _ H).
    destruct (audioData_of message) as [x|err]; [|apply Hnone].
    destruct (audio_to_play message w) as [a|]; [|apply Hnone].
    rewrite onmessage_audio_run.
    destruct (decodeAudioData a) as [b|]; cbn.
    + exists [Z.max (nextStartTimeRef w) currentTime].
      pose proof (duration_nonneg b).
      rewrite startTimes_app. cbn. splits; try lia.
      * reflexivity.
      * constructor; [lia | constructor].
      * repeat constructor.
    + exists []. rewrite app_nil_r. splits; try constructor. lia.
  - cbn. apply Hnone.
  - cbn [handler]. rewrite handler_arrives, H.
    destruct (audioData_of message) as [x|err]; [|apply Hnone].
    destruct (audio_to_play message w) as [a|]; [|apply Hnone].
    exists []. cbn. rewrite app_nil_r. splits; try constructor. lia.
  - cbn [handler]. rewrite onmessage_resumes_run, H.
    destruct (resumed_with decodeAudioData message) as [b|]; [|apply Hnone].
    rewrite onmessage_audio_resume_run. cbn.
    exists [nextStartTimeRef w]. pose proof (duration_nonneg b).
    rewrite startTimes_app. cbn. splits; try lia.
    + reflexivity.
    + constructor; [lia | constructor].
    + repeat constructor.
Qed.

(** Any run of such events: the start times it adds are in non-decreasing
    order, none before the cursor it began with, and the cursor has not
    moved back. *)
Lemma enqueues_sorted (events : list Event) (w : World) :
  forallb enqueues_only events = true ->
  exists new,
    startTimes (trace (run API_KEY decodeAudioData w events))
    = startTimes (trace w) ++ new
    /\ Sorted Z.le new
    /\ Forall (fun s => nextStartTimeRef w <= s
                        <= nextStartTimeRef (run API_KEY decodeAudioData w events))
         new
    /\ nextStartTimeRef w <= nextStartTimeRef (run API_KEY decodeAudioData w events).
Proof.
  revert w. induction events as [|e events IH]; intros w Hall.
  - exists []. cbn. rewrite app_nil_r. splits; try constructor. lia.
  - cbn in Hall. apply andb_prop in Hall. destruct Hall as [He Hrest].
    destruct (enqueue_step_starts e w He) as (new1 & E1 & B1 & S1 & C1).
    destruct (IH (step API_KEY decodeAudioData w e) Hrest)
      as (new2 & E2 & S2 & B2 & C2).
    exists (new1 ++ new2). rewrite run_cons.
    rewrite E2, E1, <- app_assoc. cbv zeta in *. splits.
    + reflexivity.
    + clear E1 E2 IH.
      induction new1 as [|s new1 IHn]; [exact S2|].
      inversion B1; subst. inversion S1; subst. cbn.
      constructor; [apply IHn; assumption|].
      destruct new1 as [|s' new1]; cbn.
      * destruct new2 as [|x new2]; constructor.
        inversion B2; subst. lia.
      * constructor. inversion H4; subst. assumption.
    + apply Forall_app. split.
      * eapply Forall_impl; [|exact B1]. cbn. intros; lia.
      * eapply Forall_impl; [|exact B2]. cbn. intros; lia.
    + lia.
Qed.

Lemma message_step_starts (message : LiveServerMessage) (t : Z) (w : World) :
  interrupted_of message = false ->
  let w' := step API_KEY decodeAudioData w (Message message t) in
  exists new,
    startTimes (trace w') = startTimes (trace w) ++ new
    /\ Forall (fun s => nextStartTimeRef w <= s <= nextStartTimeRef w') new
    /\ Sorted Z.le new
    /\ nextStartTimeRef w <= nextStartTimeRef w'.
Proof.
  intros H. apply enqueue_step_starts. cbn. rewrite H. reflexivity.
Qed.

(** An interruption whose handler returns leaves the set empty and the
    cursor at 0. *)
Lemma interruption_resets (message : LiveServerMessage) (t : Z) (w : World) :
  interrupted_of message = true ->
  fst (onmessage decodeAudioData message t w) = Returned tt ->
  playingSourcesRef (snd (onmessage decodeAudioData message t w)) = []
  /\ nextStartTimeRef (snd (onmessage decodeAudioData message t w)) = 0.
Proof.
  intros Hint. rewrite onmessage_run, Hint.
  destruct (audioData_of message) as [x|err]; [|discriminate].
  destruct (audio_to_play message w) as [a|].
  - rewrite onmessage_audio_run.
    destruct (decodeAudioData a) as [b|]; [|discriminate].
    cbv beta iota delta [when]. rewrite onmessage_interrupted_run.
    intros _. split; reflexivity.
  - cbv beta iota delta [when]. rewrite onmessage_interrupted_run.
    intros _. split; reflexivity.
Qed.

Lemma handleNext_run (w : World) :
  handleNext w =
  (Returned tt,
   with_trace (trace w ++ [SetTimeout 100]) (with_status DISCONNECTED w)).
Proof. reflexivity. Qed.

(** Every handler either leaves the cursor where it was or further on, or
    sets it to 0. *)
Lemma handler_cursor (e : Event) (w : World) :
  let w' := snd (handler API_KEY decodeAudioData e w) in
  nextStartTimeRef w <= nextStartTimeRef w' \/ nextStartTimeRef w' = 0.
Proof.
  cbv zeta. destruct e; cbn [handler].
  - right. rewrite startChat_begin_run. cbn. apply cleanup_cursor.
  - destruct granted.
    + destruct (truthy API_KEY) eqn:Hkey.
      * left. rewrite (startChat_resume_connects _ _ Hkey). cbn. lia.
      * right. rewrite (startChat_resume_no_key _ _ Hkey). apply cleanup_cursor.
    + right. rewrite startChat_resume_denied. apply cleanup_cursor.
  - left. rewrite onopen_run. cbn. lia.
  - left. rewrite onaudioprocess_run. cbn. lia.
  - rewrite onmessage_run.
    destruct (audioData_of message) as [x|err]; [|left; cbn; lia].
    destruct (audio_to_play message w) as [a|].
    + rewrite onmessage_audio_run.
      destruct (decodeAudioData a) as [b|].
      * pose proof (duration_nonneg b).
        destruct (interrupted_of message); cbv beta iota delta [when].
        -- right. rewrite onmessage_interrupted_run. reflexivity.
        -- left. cbn. lia.
      * left. cbn. lia.
    + destruct (interrupted_of message); cbv beta iota delta [when].
      * right. rewrite onmessage_interrupted_run. reflexivity.
      * left. cbn. lia.
  - right. rewrite onerror_run. apply cleanup_cursor.
  - left. rewrite onclose_run. cbn. lia.
  - right. rewrite handleStop_run. apply cleanup_cursor.
  - left. rewrite handleNext_run. cbn. lia.
  - left. cbn. lia.
  - left. cbn. lia.
  - right. apply cleanup_cursor.
  - rewrite handler_arrives.
    destruct (audioData_of message) as [x|err]; [|left; lia].
    destruct (audio_to_play message w) as [a|]; [left; cbn; lia|].
    destruct (interrupted_of message); cbv beta iota delta [when].
    + right. rewrite onmessage_interrupted_run. reflexivity.
    + left. cbn. lia.
  - rewrite onmessage_resumes_run.
    destruct (resumed_with decodeAudioData message) as [b|]; [|left; cbn; lia].
    rewrite onmessage_audio_resume_run. pose proof (duration_nonneg b).
    destruct (interrupted_of message); cbv beta iota delta [when].
    + right. rewrite onmessage_interrupted_run. reflexivity.
    + left. cbn. lia.
Qed.

Lemma step_cursor_nonneg (w : World) (e : Event) :
  0 <= nextStartTimeRef w ->
  0 <= nextStartTimeRef (step API_KEY decodeAudioData w e).
Proof.
  intros H. rewrite step_cursor.
  destruct (handler_cursor e w) as [Hle|H0]; cbv zeta in *; lia.
Qed.

Lemma run_cursor_nonneg (events : list Event) (w : World) :
  0 <= nextStartTimeRef w ->
  0 <= nextStartTimeRef (run API_KEY decodeAudioData w events).
Proof.
  revert w. induction events as [|e events IH]; intros w H; [exact H|].
  cbn. apply IH, step_cursor_nonneg, H.
Qed.

End Scheduler.

(** ** The session promise after a stop *)

Section Promises.

Variable API_KEY : option string.
Variable decodeAudioData : string -> option AudioBuffer.

(** The promise under study. *)
Variable p : SessionPromise.

Lemma queued_on_other (q : SessionPromise) (r : Reaction) :
  q <> p -> queued_on p [(q, r)] = [].
Proof.
  intros H. cbn. apply Nat.eqb_neq in H. rewrite H. reflexivity.
Qed.

(** Reactions are only ever registered on the promise in the ref. *)
Lemma queued_on_ref (ref : option SessionPromise) (r : Reaction) :
  ref <> Some p ->
  queued_on p (match ref with Some q => [(q, r)] | None => [] end) = [].
Proof.
  intros H. destruct ref as [q|]; [|reflexivity].
  apply queued_on_other. congruence.
Qed.

Lemma cleanup_promise_frame (w : World) :
  sessionPromiseRef w <> Some p ->
  let w' := snd (cleanup w) in
  sessionPromiseRef w' = None
  /\ nextId w' = nextId w
  /\ resolved w' = resolved w
  /\ queued_on p (reactions w') = queued_on p (reactions w)
  /\ session_calls p (trace w') = session_calls p (trace w).
Proof.
  intros Href. cbv zeta.
  destruct (cleanup_observed w) as (_ & _ & _ & _ & _ & Hcalls).
  cbv zeta in Hcalls. rewrite Hcalls, cleanup_run. cbn.
  rewrite queued_on_app, (queued_on_ref _ _ Href), app_nil_r.
  splits; reflexivity.
Qed.

(** No handler touches what concerns a promise that has left the ref: the
    ref never comes back to it, since a new promise gets a new number. *)
Lemma handler_promise_frame (e : Event) (w : World) :
  sessionPromiseRef w <> Some p -> (p < nextId w)%nat ->
  let w' := snd (handler API_KEY decodeAudioData e w) in
  sessionPromiseRef w' <> Some p
  /\ (p < nextId w')%nat
  /\ queued_on p (reactions w') = queued_on p (reactions w)
  /\ session_calls p (trace w') = session_calls p (trace w)
  /\ resolved w' = match e with
                   | Resolved q => q :: resolved w
                   | _ => resolved w
                   end.
Proof.
  intros Href Hid. cbv zeta.
  assert (Hclean : forall v,
            sessionPromiseRef v <> Some p -> (p < nextId v)%nat ->
            sessionPromiseRef (snd (cleanup v)) <> Some p
            /\ (p < nextId (snd (cleanup v)))%nat
            /\ queued_on p (reactions (snd (cleanup v))) = queued_on p (reactions v)
            /\ session_calls p (trace (snd (cleanup v))) = session_calls p (trace v)
            /\ resolved (snd (cleanup v)) = resolved v).
  { intros v Hv Hn.
    destruct (cleanup_promise_frame v Hv) as (H1 & H2 & H3 & H4 & H5).
    cbv zeta in *. rewrite H1, H2, H3, H4, H5.
    splits; try reflexivity; [discriminate | exact Hn]. }
  destruct e; cbn [handler].
  - rewrite startChat_begin_run. cbn [snd].
    destruct (Hclean w Href Hid) as (H1 & H2 & H3 & H4 & H5).
    cbn. rewrite session_calls_app, H4. cbn. rewrite app_nil_r.
    splits; try assumption; reflexivity.
  - destruct granted.
    + destruct (truthy API_KEY) eqn:Hkey.
      * rewrite (startChat_resume_connects _ _ Hkey). cbn.
        rewrite session_calls_app. cbn. rewrite app_nil_r.
        splits; try reflexivity; [|lia].
        intros H. inversion H. lia.
      * rewrite (startChat_resume_no_key _ _ Hkey).
        match goal with |- context [cleanup ?v] =>
          destruct (Hclean v) as (H1 & H2 & H3 & H4 & H5) end;
          [exact Href | cbn; lia |].
        rewrite H3, H4, H5. cbn in *.
        rewrite session_calls_app. cbn. rewrite app_nil_r.
        splits; try reflexivity; assumption.
    + rewrite startChat_resume_denied.
      match goal with |- context [cleanup ?v] =>
        destruct (Hclean v) as (H1 & H2 & H3 & H4 & H5) end;
        [exact Href | exact Hid |].
      rewrite H3, H4, H5. cbn in *.
      rewrite session_calls_app. cbn. rewrite app_nil_r.
      splits; try reflexivity; assumption.
  - rewrite onopen_run. cbn. rewrite session_calls_app. cbn.
    rewrite app_nil_r. splits; try reflexivity; [exact Href | lia].
  - rewrite onaudioprocess_run. cbn.
    rewrite queued_on_app, (queued_on_ref _ _ Href), app_nil_r.
    splits; try reflexivity; assumption.
  - rewrite onmessage_run.
    destruct (audioData_of message) as [x|err];
      [|cbn; splits; try reflexivity; assumption].
    destruct (audio_to_play message w) as [a|].
    + rewrite onmessage_audio_run.
      destruct (decodeAudioData a) as [b|].
      * destruct (interrupted_of message); cbv beta iota delta [when].
        -- rewrite onmessage_interrupted_run. cbn.
           rewrite !session_calls_app, session_calls_stops. cbn.
           rewrite !app_nil_r. splits; try reflexivity; [exact Href | lia].
        -- cbn. rewrite session_calls_app. cbn. rewrite app_nil_r.
           splits; try reflexivity; [exact Href | lia].
      * cbn. splits; try reflexivity; assumption.
    + destruct (interrupted_of message); cbv beta iota delta [when].
      * rewrite onmessage_interrupted_run. cbn.
        rewrite !session_calls_app, session_calls_stops, app_nil_r.
        splits; try reflexivity; assumption.
      * cbn. splits; try reflexivity; assumption.
  - rewrite onerror_run.
    match goal with |- context [cleanup ?v] =>
      destruct (Hclean v) as (H1 & H2 & H3 & H4 & H5) end;
      [exact Href | exact Hid |].
    rewrite H3, H4, H5. cbn in *.
    rewrite session_calls_app. cbn. rewrite app_nil_r.
    splits; try reflexivity; assumption.
  - rewrite onclose_run. cbn. splits; try reflexivity; assumption.
  - rewrite handleStop_run.
    match goal with |- context [cleanup ?v] =>
      destruct (Hclean v) as (H1 & H2 & H3 & H4 & H5) end;
      [exact Href | exact Hid |].
    rewrite H3, H4, H5. cbn in *. splits; try reflexivity; assumption.
  - rewrite handleNext_run. cbn. rewrite session_calls_app. cbn.
    rewrite app_nil_r. splits; try reflexivity; assumption.
  - cbn. splits; try reflexivity; assumption.
  - cbn. splits; try reflexivity; assumption.
  - destruct (Hclean w Href Hid) as (H1 & H2 & H3 & H4 & H5).
    splits; try assumption; reflexivity.
  - rewrite handler_arrives.
    destruct (audioData_of message) as [x|err];
      [|splits; try reflexivity; assumption].
    destruct (audio_to_play message w) as [a|];
      [cbn; splits; try reflexivity; assumption|].
    destruct (interrupted_of message); cbv beta iota delta [when].
    + rewrite onmessage_interrupted_run. cbn.
      rewrite !session_calls_app, session_calls_stops, app_nil_r.
      splits; try reflexivity; assumption.
    + cbn. splits; try reflexivity; assumption.
  - rewrite onmessage_resumes_run.
    destruct (resumed_with decodeAudioData message) as [b|];
      [|cbn; splits; try reflexivity; assumption].
    rewrite onmessage_audio_resume_run.
    destruct (interrupted_of message); cbv beta iota delta [when].
    + rewrite onmessage_interrupted_run. cbn.
      rewrite !session_calls_app, session_calls_stops. cbn.
      rewrite !app_nil_r. splits; try reflexivity; [exact Href | lia].
    + cbn. rewrite session_calls_app. cbn. rewrite app_nil_r.
      splits; try reflexivity; [exact Href | lia].
Qed.

(** One turn of the event loop, seen from promise [p] once it has left the
    ref: it is resolved after the turn if it was before or the event
    resolves it; the jobs of a resolved promise make the calls queued on it
    and empty its queue; a pending promise keeps its queue. *)
Lemma step_promise (e : Event) (w : World) :
  sessionPromiseRef w <> Some p -> (p < nextId w)%nat ->
  let w' := step API_KEY decodeAudioData w e in
  let done := resolves p e || existsb (Nat.eqb p) (resolved w) in
  sessionPromiseRef w' <> Some p
  /\ (p < nextId w')%nat
  /\ existsb (Nat.eqb p) (resolved w') = done
  /\ queued_on p (reactions w')
     = (if done then [] else queued_on p (reactions w))
  /\ session_calls p (trace w')
     = session_calls p (trace w)
       ++ (if done then map (call_of p) (queued_on p (reactions w)) else []).
Proof.
  intros Href Hid. cbv zeta. unfold step.
  set (w1 := snd (handler API_KEY decodeAudioData e w)).
  destruct (handler_promise_frame e w Href Hid) as (H1 & H2 & H3 & H4 & H5).
  fold w1 in H1, H2, H3, H4, H5.
  destruct (run_jobs_frame w1)
    as (_ & _ & Hsp & _ & _ & _ & _ & _ & _ & Hrs & Hni).
  rewrite Hsp, Hni, Hrs, run_jobs_reactions, run_jobs_trace,
    session_calls_app, run_reactions_kept, run_reactions_calls, H3, H4.
  assert (Hdone : existsb (Nat.eqb p) (resolved w1)
                  = resolves p e || existsb (Nat.eqb p) (resolved w)).
  { rewrite H5. destruct e; try reflexivity.
    cbn. rewrite (Nat.eqb_sym p p0). reflexivity. }
  rewrite Hdone. splits; try assumption; reflexivity.
Qed.

(** Once [p] is resolved and its queue empty, nothing more is called on
    its session. *)
Lemma run_settled (events : list Event) (w : World) :
  sessionPromiseRef w <> Some p -> (p < nextId w)%nat ->
  existsb (Nat.eqb p) (resolved w) = true ->
  queued_on p (reactions w) = [] ->
  let w' := run API_KEY decodeAudioData w events in
  session_calls p (trace w') = session_calls p (trace w)
  /\ queued_on p (reactions w') = [].
Proof.
  revert w. induction events as [|e events IH]; intros w Href Hid Hdone Hq.
  - cbn. split; [reflexivity | exact Hq].
  - rewrite run_cons.
    destruct (step_promise e w Href Hid) as (H1 & H2 & H3 & H4 & H5).
    cbv zeta in *. rewrite Hdone, orb_true_r in *. rewrite Hq in H5.
    cbn in H5. rewrite app_nil_r in H5.
    destruct (IH _ H1 H2 H3 H4) as (I1 & I2).
    rewrite I1, H5. split; [reflexivity | exact I2].
Qed.

(** While [p] is pending its queue waits; the first event that resolves it
    makes the queued calls, and these are all the calls there will be. *)
Lemma run_pending (events : list Event) (w : World) :
  sessionPromiseRef w <> Some p -> (p < nextId w)%nat ->
  existsb (Nat.eqb p) (resolved w) = false ->
  let w' := run API_KEY decodeAudioData w events in
  session_calls p (trace w')
  = session_calls p (trace w)
    ++ (if existsb (resolves p) events
        then map (call_of p) (queued_on p (reactions w)) else [])
  /\ queued_on p (reactions w')
     = (if existsb (resolves p) events then [] else queued_on p (reactions w)).
Proof.
  revert w. induction events as [|e events IH]; intros w Href Hid Hpend.
  - cbn. rewrite app_nil_r. split; reflexivity.
  - rewrite run_cons. cbn [existsb].
    destruct (step_promise e w Href Hid) as (H1 & H2 & H3 & H4 & H5).
    cbv zeta in *. rewrite Hpend, orb_false_r in *.
    destruct (resolves p e); cbn [orb].
    + destruct (run_settled events _ H1 H2 H3 H4) as (I1 & I2).
      cbv zeta in *. rewrite I1, H5. split; [reflexivity | exact I2].
    + destruct (IH _ H1 H2 H3) as (I1 & I2).
      rewrite I1, I2, H4, H5, app_nil_r. split; reflexivity.
Qed.

(** [handleStop] with [p] in the ref and pending: the ref is cleared, the
    close joins the queue of [p] behind what was there, and nothing is
    called on its session yet. *)
Lemma stop_pending (w : World) :
  sessionPromiseRef w = Some p ->
  existsb (Nat.eqb p) (resolved w) = false ->
  let w' := step API_KEY decodeAudioData w Stop in
  sessionPromiseRef w' = None
  /\ nextId w' = nextId w
  /\ resolved w' = resolved w
  /\ queued_on p (reactions w') = queued_on p (reactions w) ++ [Close]
  /\ session_calls p (trace w') = session_calls p (trace w).
Proof.
  intros Href Hpend. cbv zeta. unfold step. cbn [handler].
  rewrite handleStop_run.
  set (w1 := snd (cleanup (with_status DISCONNECTED w))).
  destruct (run_jobs_frame w1)
    as (_ & _ & Hsp & _ & _ & _ & _ & _ & _ & Hrs & Hni).
  assert (Hw1 : sessionPromiseRef w1 = None /\ nextId w1 = nextId w
                /\ resolved w1 = resolved w
                /\ reactions w1 = reactions w ++ [(p, Close)]
                /\ session_calls p (trace w1) = session_calls p (trace w)).
  { unfold w1.
    destruct (cleanup_observed (with_status DISCONNECTED w))
      as (_ & _ & _ & _ & _ & Hcalls).
    cbv zeta in Hcalls. rewrite Hcalls, cleanup_run. cbn. rewrite Href.
    splits; reflexivity. }
  destruct Hw1 as (W1 & W2 & W3 & W4 & W5).
  rewrite Hsp, Hni, Hrs, run_jobs_reactions, run_jobs_trace,
    session_calls_app, run_reactions_kept, run_reactions_calls,
    W1, W2, W3, W4, W5, Hpend, queued_on_app, app_nil_r.
  cbn. rewrite Nat.eqb_refl. splits; reflexivity.
Qed.

(** [cleanup] with [p] in the ref: the close joins the queue behind what
    was there, and the jobs that follow call what is queued on [p], the
    close last, if [p] is resolved. *)
Lemma cleanup_closes (w : World) :
  sessionPromiseRef w = Some p ->
  let w' := snd (cleanup w) in
  reactions w' = reactions w ++ [(p, Close)]
  /\ session_calls p (trace (run_jobs w'))
     = session_calls p (trace w)
       ++ (if existsb (Nat.eqb p) (resolved w)
           then map (call_of p) (queued_on p (reactions w)) ++ [SessionClose p]
           else []).
Proof.
  intros Href. cbv zeta.
  destruct (cleanup_observed w) as (_ & _ & _ & _ & _ & Hcalls).
  cbv zeta in Hcalls.
  rewrite run_jobs_trace, session_calls_app, run_reactions_calls, Hcalls,
    cleanup_run.
  cbn. rewrite Href, queued_on_app, map_app. cbn. rewrite Nat.eqb_refl.
  split; reflexivity.
Qed.

End Promises.

(** * The claims *)

(** C1 as stated fails.  In the session [connected], whose cursor is 0, a
    four-byte payload arrives at clock reading 10 and an interruption is
    handled while it is being decoded: the buffer is then started at 0,
    which is neither [max(cursor, clock)] as read at the call, 10, nor at
    or after the clock, and the cursor ends at 2.  And of three messages
    handled one after the other at clock readings 0, 1 and 2, each of which
    enqueues a buffer, the second also signals an interruption: the start
    times are 0, 4 and 2. *)
Lemma enqueue_counterexample :
  let overlapped :=
    run (Some "key"%string) sample_decoder connected
      [Arrives (audio_message "1234") 10;
       Message interruption_message 10;
       Resumes (audio_message "1234")] in
  let flagged :=
    run (Some "key"%string) sample_decoder connected
      [Message (audio_message "12345678") 0;
       Message (audio_interruption_message "1234") 1;
       Message (audio_message "1234") 2] in
  nextStartTimeRef connected = 0
  /\ audio_to_play (audio_message "1234") connected = Some "1234"%string
  /\ startTimes (trace connected) = []
  /\ startTimes (trace overlapped) = [0]
  /\ Z.max (nextStartTimeRef connected) 10 = 10
  /\ nextStartTimeRef overlapped = 2
  /\ startTimes (trace flagged) = [0; 4; 2]
  /\ ~ Sorted Z.le (startTimes (trace flagged)).
Proof.
  cbv zeta.
  assert (E : startTimes (trace (run (Some "key"%string) sample_decoder connected
                [Message (audio_message "12345678") 0;
                 Message (audio_interruption_message "1234") 1;
                 Message (audio_message "1234") 2])) = [0; 4; 2])
    by (vm_compute; reflexivity).
  rewrite E. splits; [vm_compute; reflexivity .. |]. intros H.
  inversion H as [|x l Hrest Hhd]; subst.
  inversion Hrest as [|x l Hrest' Hhd']; subst.
  inversion Hhd' as [|y l Hle]; subst. vm_compute in Hle. apply Hle. reflexivity.
Qed.

(** C1, amended.  An enqueue is in two parts, before and after the
    [await] of the decoder.  For a message that gets to the audio block
    with a payload that decodes to [buffer]: the first part raises the
    cursor to [max(cursor, currentTime)], starts nothing and waits.  The
    second part, in whatever world [v] it is resumed, connects a new
    source, passes [source.start] the cursor as it is then, advances the
    cursor to that time plus the buffer's duration and adds the source to
    the playing set; the ['ended'] listener of the source removes it
    again; the second [if] of the handler follows.  When no other handler
    runs in between, the start time is the maximum read at the call.  When
    the events in between belong to messages without the interruption
    flag, or are sources ending, the start time is at or after that
    maximum, hence at or after the clock reading of the call, and so is
    every start made since the call, in non-decreasing order.
    Consequently, in any run of such events, from any world, interleaved
    in any way and with any clock readings, the start times added are in
    non-decreasing order and none is before the cursor the run began
    with. *)
Theorem enqueue_schedule
    (API_KEY : option string) (decodeAudioData : string -> option AudioBuffer)
    (w : World) (message : LiveServerMessage) (audioData : string)
    (buffer : AudioBuffer) (currentTime : Z) (v : World)
    (between : list Event) (w0 : World) (events : list Event) :
  audio_to_play message w = Some audioData ->
  decodeAudioData audioData = Some buffer ->
  forallb enqueues_only between = true ->
  forallb enqueues_only events = true ->
  let raised := Z.max (nextStartTimeRef w) currentTime in
  let called := step API_KEY decodeAudioData w (Arrives message currentTime) in
  let source := nextId v in
  let startAt := nextStartTimeRef v in
  let v' := snd (onmessage_audio_resume buffer v) in
  let ready := run API_KEY decodeAudioData called between in
  onmessage_arrives decodeAudioData message currentTime w
  = (Returned true, with_nextStartTimeRef raised w)
  /\ nextStartTimeRef called = raised
  /\ startTimes (trace called) = startTimes (trace w)
  /\ fst (onmessage_audio_resume buffer v) = Returned tt
  /\ trace v' = trace v ++ [NodeConnect source; SourceStart source buffer startAt]
  /\ nextStartTimeRef v' = startAt + duration buffer
  /\ In source (playingSourcesRef v')
  /\ ~ In source (playingSourcesRef (snd (onended source v')))
  /\ onmessage_resumes decodeAudioData message v
     = when (interrupted_of message) onmessage_interrupted v'
  /\ trace (snd (onmessage_audio decodeAudioData audioData currentTime w))
     = trace w ++ [NodeConnect (nextId w); SourceStart (nextId w) buffer raised]
  /\ currentTime <= raised <= nextStartTimeRef ready
  /\ (exists since,
        startTimes (trace (step API_KEY decodeAudioData ready (Resumes message)))
        = startTimes (trace w) ++ since ++ [nextStartTimeRef ready]
        /\ Sorted Z.le (since ++ [nextStartTimeRef ready])
        /\ Forall (fun s => currentTime <= s) (since ++ [nextStartTimeRef ready]))
  /\ exists new,
       startTimes (trace (run API_KEY decodeAudioData w0 events))
       = startTimes (trace w0) ++ new
       /\ Sorted Z.le new
       /\ Forall (fun s => nextStartTimeRef w0 <= s) new.
Proof.
  intros Hplay Hdec Hbetween Hevents. cbv zeta.
  assert (Hcalled : step API_KEY decodeAudioData w (Arrives message currentTime)
                    = run_jobs (with_nextStartTimeRef
                                  (Z.max (nextStartTimeRef w) currentTime) w)).
  { unfold step. cbn [handler]. rewrite handler_arrives, Hplay.
    destruct (audio_to_play_returned _ _ _ Hplay) as (Hdata & _).
    rewrite Hdata. reflexivity. }
  set (called := step API_KEY decodeAudioData w (Arrives message currentTime)) in *.
  assert (Hcursor : nextStartTimeRef called
                    = Z.max (nextStartTimeRef w) currentTime).
  { rewrite Hcalled. destruct (run_jobs_frame (with_nextStartTimeRef
                                  (Z.max (nextStartTimeRef w) currentTime) w))
      as (_ & _ & _ & _ & _ & H & _). exact H. }
  assert (Hstarts : startTimes (trace called) = startTimes (trace w)).
  { rewrite Hcalled, run_jobs_startTimes. reflexivity. }
  destruct (enqueues_sorted API_KEY decodeAudioData between called Hbetween)
    as (since & Esince & Ssince & Bsince & Csince).
  set (ready := run API_KEY decodeAudioData called between) in *.
  rewrite onmessage_audio_resume_run, onmessage_resumes_run,
    (audio_to_play_resumed _ _ _ _ Hplay), Hdec, onmessage_audio_resume_run,
    onmessage_arrives_run, Hplay, Hdec, onmessage_audio_run, Hdec.
  destruct (audio_to_play_returned _ _ _ Hplay) as (Hdata & _). rewrite Hdata.
  cbn [fst snd]. splits.
  - reflexivity.
  - exact Hcursor.
  - exact Hstarts.
  - reflexivity.
  - reflexivity.
  - reflexivity.
  - apply set_add_In.
  - apply set_delete_not_In.
  - reflexivity.
  - reflexivity.
  - lia.
  - lia.
  - exists since. unfold step. rewrite run_jobs_startTimes. cbn [handler].
    rewrite onmessage_resumes_run, (audio_to_play_resumed _ _ _ _ Hplay), Hdec,
      onmessage_audio_resume_run.
    assert (Hsorted : Sorted Z.le (since ++ [nextStartTimeRef ready])).
    { clear Esince. induction since as [|s since IH]; cbn.
      - repeat constructor.
      - inversion Ssince; subst. inversion Bsince; subst.
        constructor; [apply IH; assumption|].
        destruct since as [|s' since]; cbn.
        + constructor. lia.
        + constructor. inversion H2; subst. assumption. }
    splits.
    + destruct (interrupted_of message); cbv beta iota delta [when].
      * rewrite onmessage_interrupted_run. cbn.
        rewrite !startTimes_app, startTimes_stops, Esince, Hstarts. cbn.
        rewrite app_nil_r, <- app_assoc. reflexivity.
      * cbn. rewrite startTimes_app, Esince, Hstarts. cbn.
        rewrite <- app_assoc. reflexivity.
    + exact Hsorted.
    + apply Forall_app. split.
      * eapply Forall_impl; [|exact Bsince]. cbn. intros; lia.
      * constructor; [lia | constructor].
  - destruct (enqueues_sorted API_KEY decodeAudioData events w0 Hevents)
      as (new & E & S & B & _).
    exists new. splits; [exact E | exact S |].
    eapply Forall_impl; [|exact B]. cbn. intros; lia.
Qed.

(** The theorem at work in the session [connected]: a four-byte payload
    arrives at clock reading 11, an eight-byte one is enqueued at clock
    reading 10 while the first is being decoded, and the first is then
    started at 15, behind the second. *)
Lemma enqueue_schedule_witness :
  audio_to_play (audio_message "1234") connected = Some "1234"%string
  /\ sample_decoder "1234" = Some (mkAudioBuffer 2)
  /\ forallb enqueues_only [Message (audio_message "12345678") 10] = true
  /\ forallb enqueues_only
       [Arrives (audio_message "12345678") 10; Arrives (audio_message "1234") 11;
        Resumes (audio_message "1234"); Resumes (audio_message "12345678")] = true
  /\ (let ready := run (Some "key"%string) sample_decoder
                     (step (Some "key"%string) sample_decoder connected
                        (Arrives (audio_message "1234") 11))
                     [Message (audio_message "12345678") 10] in
      nextId ready = 7%nat
      /\ nextStartTimeRef ready = 15
      /\ trace (snd (onmessage_audio_resume (mkAudioBuffer 2) ready))
         = trace ready
           ++ [NodeConnect (nextId ready);
               SourceStart (nextId ready) (mkAudioBuffer 2) (nextStartTimeRef ready)]
      /\ nextStartTimeRef (snd (onmessage_audio_resume (mkAudioBuffer 2) ready))
         = nextStartTimeRef ready + duration (mkAudioBuffer 2)
      /\ 11 <= Z.max (nextStartTimeRef connected) 11 <= nextStartTimeRef ready)
  /\ exists new,
       startTimes (trace (run (Some "key"%string) sample_decoder connected
                            [Arrives (audio_message "12345678") 10;
                             Arrives (audio_message "1234") 11;
                             Resumes (audio_message "1234");
                             Resumes (audio_message "12345678")]))
       = startTimes (trace connected) ++ new
       /\ Sorted Z.le new
       /\ Forall (fun s => nextStartTimeRef connected <= s) new.
Proof.
  pose proof (enqueue_schedule (Some "key"%string) sample_decoder connected
                (audio_message "1234") "1234" (mkAudioBuffer 2) 11
                (run (Some "key"%string) sample_decoder
                   (step (Some "key"%string) sample_decoder connected
                      (Arrives (audio_message "1234") 11))
                   [Message (audio_message "12345678") 10])
                [Message (audio_message "12345678") 10] connected
                [Arrives (audio_message "12345678") 10;
                 Arrives (audio_message "1234") 11;
                 Resumes (audio_message "1234");
                 Resumes (audio_message "12345678")]
                eq_refl eq_refl eq_refl eq_refl) as H.
  cbv zeta in H.
  destruct H as (_ & _ & _ & _ & Htrace & Hcursor & _ & _ & _ & _ & Hbound & _ & Hseq).
  split; [reflexivity|]. split; [reflexivity|]. split; [reflexivity|].
  split; [reflexivity|].
  split; [cbv zeta; split; [vm_compute; reflexivity
                           | split; [vm_compute; reflexivity
                           | split; [exact Htrace
                           | split; [exact Hcursor | exact Hbound]]]] |].
  exact Hseq.
Defined.

(** C2 as stated fails: once a four-byte payload has been enqueued at
    clock reading 3 the cursor is 5; an interruption handled at clock
    reading 9 then sets it to 0, which is before where it was and before
    the clock. *)
Lemma cursor_invariant_counterexample :
  let w1 := step (Some "key"%string) sample_decoder connected
              (Message (audio_message "1234") 3) in
  let w2 := step (Some "key"%string) sample_decoder w1
              (Message interruption_message 9) in
  nextStartTimeRef w1 = 5
  /\ nextStartTimeRef w2 = 0
  /\ ~ (9 <= nextStartTimeRef w2)
  /\ ~ (nextStartTimeRef w1 <= nextStartTimeRef w2).
Proof.
  cbv zeta. splits; try reflexivity; vm_compute; intros H; apply H; reflexivity.
Qed.

(** C2, amended.  The cursor is never negative: no event makes it so, and
    it is not at any point of any run from the mounted component.  Every
    event leaves it where it was or further on, or else sets it to 0.  The
    part of an enqueue before its [await] leaves the cursor at or after
    the clock reading of that call, whether the payload then decodes or
    not; the part after the [await] moves it on, by the buffer's duration,
    from wherever it is by then.  So an enqueue during whose [await] no
    other handler runs leaves the cursor at or after its clock reading;
    nothing keeps it there until then otherwise.  No event in the handling
    of a message without the interruption flag moves the cursor back, nor
    does a source ending.  The resets are to 0, not to the clock's time: by
    [cleanup], which start, stop, transport error and unmount run, and by
    an interruption whose handler gets that far, be it in one go, before
    its [await] or after it.  With the cursor at 0, a
    buffer enqueued at clock reading [currentTime >= 0] with no other
    handler in between starts at [currentTime]. *)
Theorem cursor_discipline
    (API_KEY : option string) (decodeAudioData : string -> option AudioBuffer)
    (w : World) (e : Event) :
  0 <= nextStartTimeRef w ->
  let w' := step API_KEY decodeAudioData w e in
  0 <= nextStartTimeRef w'
  /\ (nextStartTimeRef w <= nextStartTimeRef w' \/ nextStartTimeRef w' = 0)
  /\ (forall events : list Event,
        0 <= nextStartTimeRef (run API_KEY decodeAudioData initial events))
  /\ (forall (message : LiveServerMessage) (payload : string) (currentTime : Z),
        audio_to_play message w = Some payload ->
        currentTime
        <= nextStartTimeRef (step API_KEY decodeAudioData w (Arrives message currentTime)))
  /\ (forall buffer : AudioBuffer,
        nextStartTimeRef (snd (onmessage_audio_resume buffer w))
        = nextStartTimeRef w + duration buffer
        /\ nextStartTimeRef w
           <= nextStartTimeRef (snd (onmessage_audio_resume buffer w)))
  /\ (forall (payload : string) (buffer : AudioBuffer) (currentTime : Z),
        decodeAudioData payload = Some buffer ->
        currentTime <= nextStartTimeRef
                         (snd (onmessage_audio decodeAudioData payload currentTime w)))
  /\ (enqueues_only e = true -> nextStartTimeRef w <= nextStartTimeRef w')
  /\ nextStartTimeRef (step API_KEY decodeAudioData w Start) = 0
  /\ nextStartTimeRef (step API_KEY decodeAudioData w Stop) = 0
  /\ nextStartTimeRef (step API_KEY decodeAudioData w Failure) = 0
  /\ nextStartTimeRef (step API_KEY decodeAudioData w Unmount) = 0
  /\ (forall (message : LiveServerMessage) (currentTime : Z),
        interrupted_of message = true ->
        fst (onmessage decodeAudioData message currentTime w) = Returned tt ->
        nextStartTimeRef (step API_KEY decodeAudioData w (Message message currentTime)) = 0)
  /\ (forall (message : LiveServerMessage) (currentTime : Z),
        interrupted_of message = true ->
        fst (onmessage_arrives decodeAudioData message currentTime w)
        = Returned false ->
        nextStartTimeRef (step API_KEY decodeAudioData w (Arrives message currentTime)) = 0)
  /\ (forall (message : LiveServerMessage) (buffer : AudioBuffer),
        interrupted_of message = true ->
        resumed_with decodeAudioData message = Some buffer ->
        nextStartTimeRef (step API_KEY decodeAudioData w (Resumes message)) = 0)
  /\ (forall (v : World) (payload : string) (buffer : AudioBuffer) (currentTime : Z),
        nextStartTimeRef v = 0 -> 0 <= currentTime ->
        decodeAudioData payload = Some buffer ->
        startTimes (trace (snd (onmessage_audio decodeAudioData payload currentTime v)))
        = startTimes (trace v) ++ [currentTime]).
Proof.
  intros Hw. cbv zeta. splits.
  - apply step_cursor_nonneg, Hw.
  - rewrite step_cursor. apply handler_cursor.
  - intros events. apply run_cursor_nonneg. reflexivity.
  - intros message payload t Hplay. rewrite step_cursor. cbn [handler].
    rewrite handler_arrives, Hplay.
    destruct (audio_to_play_returned _ _ _ Hplay) as (Hdata & _).
    rewrite Hdata. cbn. lia.
  - intros buffer. rewrite onmessage_audio_resume_run. cbn.
    pose proof (duration_nonneg buffer). lia.
  - intros payload buffer t Hdec. rewrite onmessage_audio_run, Hdec. cbn.
    pose proof (duration_nonneg buffer). lia.
  - intros He.
    destruct (enqueue_step_starts API_KEY decodeAudioData e w He)
      as (_ & _ & _ & _ & H). exact H.
  - rewrite step_cursor. cbn [handler]. rewrite startChat_begin_run. cbn.
    apply cleanup_cursor.
  - rewrite step_cursor. cbn [handler]. rewrite handleStop_run.
    apply cleanup_cursor.
  - rewrite step_cursor. cbn [handler]. rewrite onerror_run.
    apply cleanup_cursor.
  - rewrite step_cursor. cbn [handler]. apply cleanup_cursor.
  - intros message t Hint Hret. rewrite step_cursor. cbn [handler].
    apply (interruption_resets decodeAudioData message t w Hint Hret).
  - intros message t Hint. rewrite step_cursor. cbn [handler].
    rewrite handler_arrives, onmessage_arrives_run, Hint.
    destruct (audioData_of message) as [x|err]; [|discriminate].
    destruct (audio_to_play message w) as [a|].
    + destruct (decodeAudioData a); discriminate.
    + intros _. cbv beta iota delta [when].
      rewrite onmessage_interrupted_run. reflexivity.
  - intros message buffer Hint Hbuf. rewrite step_cursor. cbn [handler].
    rewrite onmessage_resumes_run, Hbuf, Hint. cbv beta iota delta [when].
    rewrite onmessage_interrupted_run. reflexivity.
  - intros v payload buffer t Hv Ht Hdec.
    rewrite (enqueue_startTimes decodeAudioData payload buffer t v Hdec), Hv.
    rewrite Z.max_r by lia. reflexivity.
Qed.

(** The theorem at work on [playing_two], whose cursor is 16. *)
Lemma cursor_discipline_witness :
  0 <= nextStartTimeRef playing_two
  /\ 0 <= nextStartTimeRef (step (Some "key"%string) sample_decoder playing_two
                              (Message interruption_message 12))
  /\ nextStartTimeRef (step (Some "key"%string) sample_decoder playing_two Stop) = 0.
Proof.
  assert (H0 : 0 <= nextStartTimeRef playing_two)
    by (vm_compute; discriminate).
  pose proof (cursor_discipline (Some "key"%string) sample_decoder playing_two
                (Message interruption_message 12) H0) as H.
  cbv zeta in H. destruct H as (H1 & _ & _ & _ & _ & _ & _ & _ & H9 & _).
  split; [exact H0|]. split; [exact H1 | exact H9].
Defined.







(** C5 as stated fails: a payload of three bytes does not decode, the
    handler ends with the decode error, and nothing has been written to the
    console, before or after. *)
Lemma malformed_frame_counterexample :
  let w' := step (Some "key"%string) sample_decoder connected
              (Message (audio_message "123") 7) in
  sample_decoder "123" = None
  /\ fst (onmessage sample_decoder (audio_message "123") 7 connected)
     = Thrown MalformedFrame
  /\ logged (trace connected) = []
  /\ logged (trace w') = [].
Proof. cbv zeta. splits; reflexivity. Qed.

(** C5, amended.  When the payload of a message that reaches the audio
    block does not decode, the handler ends there with the decode error and
    the event loop goes on: nothing is written to the console, no source is
    started and none is added to the playing set; the status and the
    resource handles are as before; only the cursor has been raised to
    [max(cursor, currentTime)]; and a payload that decodes is scheduled
    afterwards as usual. *)
Theorem malformed_frame_dropped
    (API_KEY : option string) (decodeAudioData : string -> option AudioBuffer)
    (w : World) (message : LiveServerMessage) (payload : string)
    (currentTime : Z) :
  audio_to_play message w = Some payload ->
  decodeAudioData payload = None ->
  let w' := step API_KEY decodeAudioData w (Message message currentTime) in
  fst (onmessage decodeAudioData message currentTime w) = Thrown MalformedFrame
  /\ logged (trace w') = logged (trace w)
  /\ startTimes (trace w') = startTimes (trace w)
  /\ incl (playingSourcesRef w') (playingSourcesRef w)
  /\ status w' = status w
  /\ localStreamRef w' = localStreamRef w
  /\ sessionPromiseRef w' = sessionPromiseRef w
  /\ inputAudioProcessorRef w' = inputAudioProcessorRef w
  /\ outputAudioContextRef w' = outputAudioContextRef w
  /\ nextStartTimeRef w' = Z.max (nextStartTimeRef w) currentTime
  /\ forall (good : string) (buffer : AudioBuffer) (later : Z),
       decodeAudioData good = Some buffer ->
       startTimes (trace (snd (onmessage_audio decodeAudioData good later w')))
       = startTimes (trace w') ++ [Z.max (nextStartTimeRef w') later].
Proof.
  intros Hplay Hdec w'.
  assert (Hrun : onmessage decodeAudioData message currentTime w
                 = (Thrown MalformedFrame,
                    with_nextStartTimeRef
                      (Z.max (nextStartTimeRef w) currentTime) w)).
  { rewrite (onmessage_plays _ _ _ _ _ Hplay), onmessage_audio_run, Hdec.
    reflexivity. }
  splits;
    [ .. | intros good buffer later Hg;
           exact (enqueue_startTimes decodeAudioData good buffer later w' Hg) ].
  all: subst w'.
  all: unfold step; cbn [handler];
    rewrite ?run_jobs_logged, ?run_jobs_startTimes.
  all: destruct (run_jobs_frame
              (snd (onmessage decodeAudioData message currentTime w)))
    as (Hst & _ & Hsp & Hls & Hoc & Hcur & Hps & Hip & _).
  all: rewrite ?Hst, ?Hsp, ?Hls, ?Hoc, ?Hcur, ?Hps, ?Hip, Hrun; cbn [fst snd].
  all: try reflexivity.
  apply incl_refl.
Qed.

(** The theorem at work: a three-byte payload in the session [connected]. *)
Lemma malformed_frame_dropped_witness :
  audio_to_play (audio_message "123") connected = Some "123"%string
  /\ sample_decoder "123" = None
  /\ status (step (Some "key"%string) sample_decoder connected
               (Message (audio_message "123") 7)) = status connected
  /\ nextStartTimeRef (step (Some "key"%string) sample_decoder connected
                         (Message (audio_message "123") 7))
     = Z.max (nextStartTimeRef connected) 7.
Proof.
  pose proof (malformed_frame_dropped (Some "key"%string) sample_decoder
                connected (audio_message "123") "123" 7 eq_refl eq_refl) as H.
  cbv zeta in H.
  destruct H as (_ & _ & _ & _ & Hst & _ & _ & _ & _ & Hcur & _).
  split; [reflexivity|]. split; [reflexivity|].
  split; [exact Hst | exact Hcur].
Defined.

(** C6, the code at the failing input.  In the session [connected], whose
    status is CONNECTED, a close event makes the status DISCONNECTED and
    does nothing else: the stream, the session promise, the capture
    processor and the output context stay in their refs and no releasing
    call is made, where an error event on the same world releases them
    all. *)
Theorem onclose_keeps_resources :
  let w' := step (Some "key"%string) sample_decoder connected Closed in
  status connected = CONNECTED
  /\ status w' = DISCONNECTED
  /\ localStreamRef w' = Some 0%nat
  /\ sessionPromiseRef w' = Some 3%nat
  /\ inputAudioProcessorRef w' = Some (4%nat, 5%nat)
  /\ outputAudioContextRef w' = Some 2%nat
  /\ trace w' = trace connected
  /\ ~ released w'
  /\ released (step (Some "key"%string) sample_decoder connected Failure).
Proof.
  cbv zeta. splits.
  1-7: vm_compute; reflexivity.
  - intros (H & _). vm_compute in H. discriminate.
  - vm_compute. splits; reflexivity.
Qed.

(** C7 (idempotent cleanup).  In every world, whatever was acquired,
    [cleanup] returns without an exception and leaves the stream, the
    session promise, the capture processor and the output context null,
    the set of playing sources empty and the cursor at 0, the stream state
    null if a stream was held, having made the releasing calls on what was
    held and having queued the close of the session on the promise that
    was in the ref: the jobs that follow call what is queued on that
    promise, the close last, if it is resolved, and leave it queued if
    not.  A second [cleanup] right after returns as well and changes
    nothing at all: no call, nothing queued.  The same holds for
    [handleStop] in every state, IDLE and DISCONNECTED included, and for a
    second [handleStop]; on the freshly mounted component [cleanup] is the
    identity. *)
Theorem cleanup_idempotent (w : World) :
  let w1 := snd (cleanup w) in
  let w2 := snd (handleStop w) in
  let closes (v : World) :=
    match sessionPromiseRef w with
    | Some p =>
        session_calls p (trace (run_jobs v))
        = session_calls p (trace w)
          ++ (if existsb (Nat.eqb p) (resolved w)
              then map (call_of p) (queued_on p (reactions w)) ++ [SessionClose p]
              else [])
    | None => reactions (run_jobs v) = reactions (run_jobs w)
    end in
  fst (cleanup w) = Returned tt
  /\ released w1
  /\ localStream w1
     = match localStreamRef w with Some _ => None | None => localStream w end
  /\ nextStartTimeRef w1 = 0
  /\ status w1 = status w
  /\ trace w1 = trace w ++ cleanup_calls w
  /\ reactions w1 = reactions w ++ cleanup_reactions w
  /\ closes w1
  /\ cleanup w1 = (Returned tt, w1)
  /\ fst (handleStop w) = Returned tt
  /\ released w2
  /\ nextStartTimeRef w2 = 0
  /\ status w2 = DISCONNECTED
  /\ trace w2 = trace w ++ cleanup_calls w
  /\ reactions w2 = reactions w ++ cleanup_reactions w
  /\ closes w2
  /\ handleStop w2 = (Returned tt, w2)
  /\ cleanup initial = (Returned tt, initial).
Proof.
  cbv zeta. rewrite !handleStop_run.
  assert (Hcloses : forall v : World,
            sessionPromiseRef v = sessionPromiseRef w ->
            resolved v = resolved w -> reactions v = reactions w ->
            (forall p, session_calls p (trace v) = session_calls p (trace w)) ->
            match sessionPromiseRef w with
            | Some p =>
                session_calls p (trace (run_jobs (snd (cleanup v))))
                = session_calls p (trace w)
                  ++ (if existsb (Nat.eqb p) (resolved w)
                      then map (call_of p) (queued_on p (reactions w))
                           ++ [SessionClose p]
                      else [])
            | None => reactions (run_jobs (snd (cleanup v))) = reactions (run_jobs w)
            end).
  { intros v Hsp Hrs Hrx Htr.
    destruct (sessionPromiseRef w) as [p|] eqn:Href.
    - destruct (cleanup_closes p v Hsp) as (_ & H). cbv zeta in H.
      rewrite H, Hrs, Hrx, Htr. reflexivity.
    - rewrite !run_jobs_reactions, cleanup_run. cbn.
      rewrite Hsp, Hrs, Hrx, app_nil_r. reflexivity. }
  splits; try apply cleanup_released; try apply cleanup_cursor.
  - apply cleanup_returns.
  - rewrite cleanup_run. reflexivity.
  - apply cleanup_status.
  - apply cleanup_trace.
  - rewrite cleanup_run. reflexivity.
  - apply Hcloses; reflexivity.
  - apply cleanup_fixed; [apply cleanup_released | apply cleanup_cursor].
  - apply cleanup_returns.
  - rewrite cleanup_status. reflexivity.
  - rewrite cleanup_trace. reflexivity.
  - rewrite cleanup_run. reflexivity.
  - apply Hcloses; reflexivity.
  - set (w2 := snd (cleanup (with_status DISCONNECTED w))).
    assert (Hst : with_status DISCONNECTED w2 = w2).
    { assert (H : status w2 = DISCONNECTED)
        by (unfold w2; rewrite cleanup_status; reflexivity).
      destruct w2; simpl in *; subst; reflexivity. }
    rewrite Hst.
    apply cleanup_fixed; [apply cleanup_released | apply cleanup_cursor].
  - reflexivity.
Qed.

(** The theorem at work in the session [connected], whose promise, object
    3, is resolved: the jobs after [cleanup] close the session. *)
Lemma cleanup_idempotent_witness :
  sessionPromiseRef connected = Some 3%nat
  /\ session_calls 3%nat (trace connected) = []
  /\ existsb (Nat.eqb 3%nat) (resolved connected) = true
  /\ queued_on 3%nat (reactions connected) = []
  /\ reactions (snd (cleanup connected)) = [(3%nat, Close)]
  /\ session_calls 3%nat (trace (run_jobs (snd (cleanup connected))))
     = [SessionClose 3%nat].
Proof.
  pose proof (cleanup_idempotent connected) as H. cbv zeta in H.
  destruct H as (_ & _ & _ & _ & _ & _ & Hqueue & Hcloses & _).
  do 4 (split; [vm_compute; reflexivity|]).
  split; [exact Hqueue | exact Hcloses].
Defined.

(** C8 as stated fails: the capture processor hands over a frame while
    the session promise, object 3, is still pending, and the user stops.
    Nothing has been called on the session at that point; when the promise
    resolves, the frame is sent on the connection, after the stop, and the
    connection is closed only then. *)
Lemma send_after_stop_counterexample :
  let w := run (Some "key"%string) sample_decoder initial
             [Start; UserMediaSettled true; Open; AudioProcess "frame"] in
  let stopped := step (Some "key"%string) sample_decoder w Stop in
  let final := step (Some "key"%string) sample_decoder stopped (Resolved 3%nat) in
  sessionPromiseRef w = Some 3%nat
  /\ resolved w = []
  /\ status stopped = DISCONNECTED
  /\ session_calls 3%nat (trace stopped) = []
  /\ session_calls 3%nat (trace final)
     = [SessionSend 3%nat "frame"; SessionClose 3%nat].
Proof. cbv zeta. splits; vm_compute; reflexivity. Qed.

(** C8, amended.  Let [handleStop] run while the promise [p] in the ref is
    still pending.  The ref is cleared and the close is queued on [p]
    behind the sends that were already queued on it; nothing is called on
    the session yet.  Whatever events follow, the calls ever made on that
    session are: none as long as [p] does not resolve, and, from the turn
    in which it resolves on, exactly the sends queued before the stop
    followed by the close.  So the connection is closed in the turn it
    resolves, no send is queued on it after the stop, and nothing is sent
    on it after the close; the sends queued before the stop are still
    made. *)
Theorem stop_before_resolution
    (API_KEY : option string) (decodeAudioData : string -> option AudioBuffer)
    (w : World) (p : SessionPromise) (events : list Event) :
  sessionPromiseRef w = Some p ->
  existsb (Nat.eqb p) (resolved w) = false ->
  (p < nextId w)%nat ->
  let stopped := step API_KEY decodeAudioData w Stop in
  let final := run API_KEY decodeAudioData stopped events in
  let queued := queued_on p (reactions w) in
  sessionPromiseRef stopped = None
  /\ queued_on p (reactions stopped) = queued ++ [Close]
  /\ session_calls p (trace stopped) = session_calls p (trace w)
  /\ session_calls p (trace final)
     = session_calls p (trace w)
       ++ (if existsb (resolves p) events
           then map (call_of p) queued ++ [SessionClose p]
           else [])
  /\ queued_on p (reactions final)
     = (if existsb (resolves p) events then [] else queued ++ [Close]).
Proof.
  intros Href Hpend Hid. cbv zeta.
  destruct (stop_pending API_KEY decodeAudioData p w Href Hpend)
    as (S1 & S2 & S3 & S4 & S5).
  cbv zeta in *.
  set (stopped := step API_KEY decodeAudioData w Stop) in *.
  assert (Href' : sessionPromiseRef stopped <> Some p)
    by (rewrite S1; discriminate).
  assert (Hid' : (p < nextId stopped)%nat) by (rewrite S2; exact Hid).
  assert (Hpend' : existsb (Nat.eqb p) (resolved stopped) = false)
    by (rewrite S3; exact Hpend).
  destruct (run_pending API_KEY decodeAudioData p events stopped
              Href' Hid' Hpend') as (R1 & R2).
  cbv zeta in *. rewrite R1, R2, S4, S5, map_app. cbn.
  splits; try reflexivity; assumption.
Qed.

(** The theorem at work: one frame queued on the pending promise 3, a stop,
    then a late frame, the resolution, and another frame. *)
Lemma stop_before_resolution_witness :
  let w := run (Some "key"%string) sample_decoder initial
             [Start; UserMediaSettled true; Open; AudioProcess "frame"] in
  sessionPromiseRef w = Some 3%nat
  /\ existsb (Nat.eqb 3%nat) (resolved w) = false
  /\ (3 < nextId w)%nat
  /\ session_calls 3%nat
       (trace (run (Some "key"%string) sample_decoder
                 (step (Some "key"%string) sample_decoder w Stop)
                 [AudioProcess "late"; Resolved 3%nat; AudioProcess "later"]))
     = session_calls 3%nat (trace w)
       ++ map (call_of 3%nat) (queued_on 3%nat (reactions w))
       ++ [SessionClose 3%nat].
Proof.
  cbv zeta.
  set (w := run (Some "key"%string) sample_decoder initial
              [Start; UserMediaSettled true; Open; AudioProcess "frame"]).
  assert (H1 : sessionPromiseRef w = Some 3%nat) by reflexivity.
  assert (H2 : existsb (Nat.eqb 3%nat) (resolved w) = false) by reflexivity.
  assert (H3 : (3 < nextId w)%nat) by (vm_compute; lia).
  pose proof (stop_before_resolution (Some "key"%string) sample_decoder w
                3%nat [AudioProcess "late"; Resolved 3%nat; AudioProcess "later"]
                H1 H2 H3) as H.
  cbv zeta in H. destruct H as (_ & _ & _ & H & _).
  split; [exact H1|]. split; [exact H2|]. split; [exact H3|]. exact H.
Defined.





(** * Further properties of the component *)

(** ** More about traces *)

Section MoreObservers.

Lemma started_sources_app (l1 l2 : list Effect) :
  started_sources (l1 ++ l2) = started_sources l1 ++ started_sources l2.
Proof.
  induction l1 as [|e l1 IH]; [reflexivity|].
  destruct e; simpl; rewrite IH; reflexivity.
Qed.

Lemma stopped_sources_app (l1 l2 : list Effect) :
  stopped_sources (l1 ++ l2) = stopped_sources l1 ++ stopped_sources l2.
Proof.
  induction l1 as [|e l1 IH]; [reflexivity|].
  destruct e; simpl; rewrite IH; reflexivity.
Qed.

Lemma contexts_at_app (rate : Z) (l1 l2 : list Effect) :
  contexts_at rate (l1 ++ l2) = contexts_at rate l1 ++ contexts_at rate l2.
Proof.
  induction l1 as [|e l1 IH]; [reflexivity|].
  destruct e; simpl; try (destruct (Z.eqb _ rate); simpl); rewrite IH;
    reflexivity.
Qed.

Lemma context_closes_app (l1 l2 : list Effect) :
  context_closes (l1 ++ l2) = context_closes l1 ++ context_closes l2.
Proof.
  induction l1 as [|e l1 IH]; [reflexivity|].
  destruct e; simpl; rewrite IH; reflexivity.
Qed.

Lemma stopped_streams_app (l1 l2 : list Effect) :
  stopped_streams (l1 ++ l2) = stopped_streams l1 ++ stopped_streams l2.
Proof.
  induction l1 as [|e l1 IH]; [reflexivity|].
  destruct e; simpl; rewrite IH; reflexivity.
Qed.

Lemma stopped_sources_stops (l : list AudioBufferSourceNode) :
  stopped_sources (map SourceStop l) = l.
Proof. induction l as [|x l IH]; simpl; [|rewrite IH]; reflexivity. Qed.

Lemma quiet_stops (rate : Z) (l : list AudioBufferSourceNode) :
  started_sources (map SourceStop l) = []
  /\ contexts_at rate (map SourceStop l) = []
  /\ context_closes (map SourceStop l) = []
  /\ stopped_streams (map SourceStop l) = []
  /\ connections (map SourceStop l) = []
  /\ mediaRequests (map SourceStop l) = O.
Proof. induction l; simpl; [repeat split | assumption]. Qed.

(** The promise jobs start and stop nothing and build and close no
    context. *)
Lemma run_reactions_silent (rate : Z) (done : list SessionPromise)
    (queue : list (SessionPromise * Reaction)) :
  let effects := fst (run_reactions done queue) in
  started_sources effects = [] /\ stopped_sources effects = []
  /\ contexts_at rate effects = [] /\ context_closes effects = []
  /\ stopped_streams effects = [].
Proof.
  induction queue as [|[p r] queue IH]; simpl; [repeat split|].
  destruct (run_reactions done queue) as [effects kept]; simpl in *.
  destruct (existsb (Nat.eqb p) done); simpl; [|exact IH].
  destruct r; simpl; exact IH.
Qed.

Lemma run_jobs_silent (rate : Z) (w : World) :
  let w' := run_jobs w in
  started_sources (trace w') = started_sources (trace w)
  /\ stopped_sources (trace w') = stopped_sources (trace w)
  /\ contexts_at rate (trace w') = contexts_at rate (trace w)
  /\ context_closes (trace w') = context_closes (trace w)
  /\ stopped_streams (trace w') = stopped_streams (trace w).
Proof.
  cbv zeta. rewrite run_jobs_trace.
  destruct (run_reactions_silent rate (resolved w) (reactions w))
    as (H1 & H2 & H3 & H4 & H5).
  cbv zeta in *.
  rewrite started_sources_app, stopped_sources_app, contexts_at_app,
    context_closes_app, stopped_streams_app, H1, H2, H3, H4, H5, !app_nil_r.
  splits; reflexivity.
Qed.

(** What the calls of [cleanup] are, seen through each observer. *)
Lemma cleanup_calls_seen (rate : Z) (w : World) :
  started_sources (cleanup_calls w) = []
  /\ stopped_sources (cleanup_calls w) = playingSourcesRef w
  /\ contexts_at rate (cleanup_calls w) = []
  /\ context_closes (cleanup_calls w)
     = match outputAudioContextRef w with
       | Some ctx =>
           if existsb (Nat.eqb ctx) (closedContexts w) then [] else [ctx]
       | None => []
       end
  /\ stopped_streams (cleanup_calls w)
     = match localStreamRef w with Some s => [s] | None => [] end.
Proof.
  unfold cleanup_calls.
  destruct (quiet_stops rate (playingSourcesRef w))
    as (Q1 & Q2 & Q3 & Q4 & _).
  destruct (localStreamRef w), (inputAudioProcessorRef w) as [[a b]|],
    (outputAudioContextRef w) as [c|];
    try destruct (existsb (Nat.eqb c) (closedContexts w));
    cbn;
    rewrite ?started_sources_app, ?stopped_sources_app, ?contexts_at_app,
      ?context_closes_app, ?stopped_streams_app, ?stopped_sources_stops,
      ?Q1, ?Q2, ?Q3, ?Q4; cbn; rewrite ?app_nil_r; splits; reflexivity.
Qed.

End MoreObservers.

(** ** The jobs, field by field *)

Section JobsRewriting.

Lemma jobs_status (w : World) : status (run_jobs w) = status w.
Proof. apply run_jobs_frame. Qed.

Lemma jobs_localStream (w : World) : localStream (run_jobs w) = localStream w.
Proof. apply run_jobs_frame. Qed.

Lemma jobs_sessionPromiseRef (w : World) : sessionPromiseRef (run_jobs w) = sessionPromiseRef w.
Proof. apply run_jobs_frame. Qed.

Lemma jobs_localStreamRef (w : World) : localStreamRef (run_jobs w) = localStreamRef w.
Proof. apply run_jobs_frame. Qed.

Lemma jobs_outputAudioContextRef (w : World) : outputAudioContextRef (run_jobs w) = outputAudioContextRef w.
Proof. apply run_jobs_frame. Qed.

Lemma jobs_nextStartTimeRef (w : World) : nextStartTimeRef (run_jobs w) = nextStartTimeRef w.
Proof. apply run_jobs_frame. Qed.

Lemma jobs_playingSourcesRef (w : World) : playingSourcesRef (run_jobs w) = playingSourcesRef w.
Proof. apply run_jobs_frame. Qed.

Lemma jobs_inputAudioProcessorRef (w : World) : inputAudioProcessorRef (run_jobs w) = inputAudioProcessorRef w.
Proof. apply run_jobs_frame. Qed.

Lemma jobs_closedContexts (w : World) : closedContexts (run_jobs w) = closedContexts w.
Proof. apply run_jobs_frame. Qed.

Lemma jobs_resolved (w : World) : resolved (run_jobs w) = resolved w.
Proof. apply run_jobs_frame. Qed.

Lemma jobs_nextId (w : World) : nextId (run_jobs w) = nextId w.
Proof. apply run_jobs_frame. Qed.

Lemma jobs_connections (w : World) : connections (trace (run_jobs w)) = connections (trace w).
Proof. apply run_jobs_observed. Qed.

Lemma jobs_contexts (w : World) : contexts (trace (run_jobs w)) = contexts (trace w).
Proof. apply run_jobs_observed. Qed.

Lemma jobs_mediaRequests (w : World) : mediaRequests (trace (run_jobs w)) = mediaRequests (trace w).
Proof. apply run_jobs_observed. Qed.

Lemma jobs_started_sources (w : World) : started_sources (trace (run_jobs w)) = started_sources (trace w).
Proof. apply (run_jobs_silent 0 w). Qed.

Lemma jobs_stopped_sources (w : World) : stopped_sources (trace (run_jobs w)) = stopped_sources (trace w).
Proof. apply (run_jobs_silent 0 w). Qed.

Lemma jobs_context_closes (w : World) : context_closes (trace (run_jobs w)) = context_closes (trace w).
Proof. apply (run_jobs_silent 0 w). Qed.

Lemma jobs_stopped_streams (w : World) : stopped_streams (trace (run_jobs w)) = stopped_streams (trace w).
Proof. apply (run_jobs_silent 0 w). Qed.

Lemma jobs_contexts_at (rate : Z) (w : World) :
  contexts_at rate (trace (run_jobs w)) = contexts_at rate (trace w).
Proof. apply (run_jobs_silent rate w). Qed.

Lemma jobs_cleanup_calls (w : World) :
  cleanup_calls (run_jobs w) = cleanup_calls w.
Proof.
  unfold cleanup_calls.
  rewrite jobs_localStreamRef, jobs_inputAudioProcessorRef,
    jobs_playingSourcesRef, jobs_outputAudioContextRef, jobs_closedContexts.
  reflexivity.
Qed.

End JobsRewriting.

Create Rewrite HintDb jobs.
Create Rewrite HintDb observers.

#[local] Hint Rewrite jobs_cleanup_calls jobs_status jobs_localStream jobs_sessionPromiseRef jobs_localStreamRef jobs_outputAudioContextRef jobs_nextStartTimeRef jobs_playingSourcesRef jobs_inputAudioProcessorRef jobs_closedContexts jobs_resolved jobs_nextId jobs_connections jobs_contexts jobs_mediaRequests jobs_started_sources jobs_stopped_sources jobs_context_closes jobs_stopped_streams jobs_contexts_at
  run_jobs_startTimes run_jobs_logged : jobs.

#[local] Hint Rewrite startTimes_app logged_app connections_app contexts_app
  mediaRequests_app session_calls_app queued_on_app started_sources_app
  stopped_sources_app contexts_at_app context_closes_app stopped_streams_app
  : observers.

(** A turn of the event loop seen through the fields and the observers
    is its handler. *)
Ltac to_handler := unfold step; autorewrite with jobs; cbn [handler].

(** The cases of a run of [onmessage], whole or in part: what the handler
    was handed, what the decoder made of it, whether it signals an
    interruption. *)
Ltac message_cases :=
  rewrite ?onmessage_run, ?handler_arrives, ?onmessage_resumes_run;
  repeat match goal with
  | |- context [match audioData_of ?m with _ => _ end] =>
      destruct (audioData_of m) as [?|?]
  | |- context [match audio_to_play ?m ?v with _ => _ end] =>
      destruct (audio_to_play m v) as [?|]
  | |- context [match resumed_with ?d ?m with _ => _ end] =>
      destruct (resumed_with d m) as [?|]
  | |- context [onmessage_audio ?d ?a ?t ?v] =>
      rewrite (onmessage_audio_run d a t v); destruct (d a) as [?|]
  | |- context [onmessage_audio_resume ?b ?v] =>
      rewrite (onmessage_audio_resume_run b v)
  | |- context [when (interrupted_of ?m) _ _] =>
      destruct (interrupted_of m); cbv beta iota delta [when ret]
  | |- context [onmessage_interrupted ?v] =>
      rewrite (onmessage_interrupted_run v)
  end.

(** Projections of a world that is written out. *)
Ltac fields :=
  cbn [fst snd status localStream sessionPromiseRef localStreamRef
       outputAudioContextRef nextStartTimeRef playingSourcesRef
       inputAudioProcessorRef closedContexts resolved reactions nextId trace
       with_status with_localStream with_sessionPromiseRef
       with_localStreamRef with_outputAudioContextRef with_nextStartTimeRef
       with_playingSourcesRef with_inputAudioProcessorRef
       with_closedContexts with_resolved with_reactions with_nextId
       with_trace].

(** ** The controls and the lifecycle *)

(** X1 (buttons).  Whatever the status, [Controls] renders either the
    Start button alone or the Stop and Next buttons, the latter exactly
    when [isChatting] holds, which is also when [VideoFeed] shows the
    partner.  A Start button that is rendered is never disabled and always
    reads "Start" (its CONNECTING variants cannot occur), Stop is never
    disabled, Next is enabled in CONNECTED only, and no two statuses share
    a status text. *)
Theorem controls_follow_status (status : ChatStatus) :
  map onClick (Controls status)
  = (if isChatting status then [OnStop; OnNext] else [OnStart])
  /\ (forall b, In b (Controls status) -> onClick b = OnStart ->
        disabled b = false /\ caption b = "Start"%string)
  /\ (forall b, In b (Controls status) -> onClick b = OnStop ->
        disabled b = false)
  /\ (forall b, In b (Controls status) -> onClick b = OnNext ->
        disabled b = negb (status_eqb status CONNECTED))
  /\ (forall other, getStatusText other = getStatusText status ->
        other = status).
Proof.
  splits.
  - destruct status; reflexivity.
  - destruct status; cbn; intros b H Hb;
      repeat (destruct H as [H|H]; [subst b; try discriminate Hb|]);
      try contradiction; split; reflexivity.
  - destruct status; cbn; intros b H Hb;
      repeat (destruct H as [H|H]; [subst b; try discriminate Hb|]);
      try contradiction; reflexivity.
  - destruct status; cbn; intros b H Hb;
      repeat (destruct H as [H|H]; [subst b; try discriminate Hb|]);
      try contradiction; reflexivity.
  - intros other. destruct other, status; cbn; intros H;
      try reflexivity; discriminate H.
Qed.

(** X2 (clicks).  In every world, a click on any button that is rendered
    and enabled switches the controls to the other group of buttons: Start
    leads to a status in which Stop and Next are shown, Stop and Next to
    one in which Start is shown. *)
Theorem enabled_click_switches_controls
    (API_KEY : option string) (decodeAudioData : string -> option AudioBuffer)
    (w : World) (b : Button) :
  In b (Controls (status w)) ->
  disabled b = false ->
  isChatting (status (step API_KEY decodeAudioData w (click (onClick b))))
  = negb (isChatting (status w)).
Proof.
  intros Hin Hen.
  assert (Hstart : status (step API_KEY decodeAudioData w Start) = CONNECTING).
  { to_handler. rewrite startChat_begin_run. reflexivity. }
  assert (Hstop : status (step API_KEY decodeAudioData w Stop) = DISCONNECTED).
  { to_handler. rewrite handleStop_run, cleanup_status. reflexivity. }
  assert (Hnext : status (step API_KEY decodeAudioData w Next) = DISCONNECTED).
  { to_handler. reflexivity. }
  destruct (status w); cbn in Hin;
    repeat (destruct Hin as [Hin|Hin]; [subst b; cbn in Hen |- *|]);
    try contradiction; try discriminate Hen;
    rewrite ?Hstart, ?Hstop, ?Hnext; reflexivity.
Qed.

Lemma enabled_click_switches_controls_witness :
  In (mkButton "Next" OnNext false) (Controls (status connected))
  /\ isChatting (status (step (Some "key"%string) sample_decoder connected Next))
     = negb (isChatting (status connected)).
Proof.
  assert (H : In (mkButton "Next" OnNext false) (Controls (status connected)))
    by (right; left; reflexivity).
  split; [exact H|].
  exact (enabled_click_switches_controls (Some "key"%string) sample_decoder
           connected (mkButton "Next" OnNext false) H eq_refl).
Defined.

(** The world [startChat] leaves when it reaches its [await]. *)
Lemma startChat_begin_world (w : World) :
  snd (startChat_begin w) =
  mkWorld CONNECTING
    (match localStreamRef w with Some _ => None | None => localStream w end)
    None None None 0 [] None
    (match outputAudioContextRef w with
     | Some ctx =>
         if existsb (Nat.eqb ctx) (closedContexts w) then closedContexts w
         else ctx :: closedContexts w
     | None => closedContexts w
     end)
    (resolved w)
    (reactions w
     ++ match sessionPromiseRef w with Some p => [(p, Close)] | None => [] end)
    (nextId w)
    ((trace w ++ cleanup_calls w) ++ [GetUserMedia]).
Proof. rewrite startChat_begin_run, cleanup_run. reflexivity. Qed.

(** X3 (a start that succeeds).  With a key and the devices granted,
    [startChat] from any world ends, still in CONNECTING, with a new stream
    in the ref and in the state, a new output context in its ref, a new
    session promise in its ref, the cursor at 0 and nothing playing; it has
    called [getUserMedia] once, built one context at 16 kHz and one at
    24 kHz, asked for one connection and logged nothing.  [onopen] then
    shows CONNECTED and puts the capture nodes in their ref, the other refs
    staying as they are. *)
Theorem start_connects
    (API_KEY : option string) (decodeAudioData : string -> option AudioBuffer)
    (w : World) :
  truthy API_KEY = true ->
  let n := nextId w in
  let w1 := step API_KEY decodeAudioData w Start in
  let w2 := step API_KEY decodeAudioData w1 (UserMediaSettled true) in
  let w3 := step API_KEY decodeAudioData w2 Open in
  status w2 = CONNECTING
  /\ localStreamRef w2 = Some n
  /\ localStream w2 = Some n
  /\ outputAudioContextRef w2 = Some (2 + n)%nat
  /\ sessionPromiseRef w2 = Some (3 + n)%nat
  /\ inputAudioProcessorRef w2 = None
  /\ playingSourcesRef w2 = []
  /\ nextStartTimeRef w2 = 0
  /\ mediaRequests (trace w2) = S (mediaRequests (trace w))
  /\ contexts_at 16000 (trace w2) = contexts_at 16000 (trace w) ++ [(1 + n)%nat]
  /\ contexts_at 24000 (trace w2) = contexts_at 24000 (trace w) ++ [(2 + n)%nat]
  /\ connections (trace w2) = connections (trace w) ++ [(3 + n)%nat]
  /\ logged (trace w2) = logged (trace w)
  /\ status w3 = CONNECTED
  /\ inputAudioProcessorRef w3 = Some ((4 + n)%nat, (5 + n)%nat)
  /\ localStreamRef w3 = Some n
  /\ outputAudioContextRef w3 = Some (2 + n)%nat
  /\ sessionPromiseRef w3 = Some (3 + n)%nat.
Proof.
  intros Hkey n w1 w2 w3.
  destruct (cleanup_calls_quiet w) as (_ & _ & Q3 & Q4 & _ & Q6).
  pose proof (cleanup_calls_seen 16000 w) as (_ & _ & Q16 & _).
  pose proof (cleanup_calls_seen 24000 w) as (_ & _ & Q24 & _).
  subst w3 w2 w1 n.
  splits.
  all: repeat (progress (to_handler;
         rewrite ?onopen_run, ?startChat_begin_world,
           ?(startChat_resume_connects API_KEY _ Hkey);
         fields; autorewrite with observers jobs)).
  all: rewrite ?Q3, ?Q4, ?Q6, ?Q16, ?Q24; cbn;
    rewrite ?app_nil_r, ?Nat.add_0_r, ?Nat.add_1_r; reflexivity.
Qed.

Lemma start_connects_witness :
  truthy (Some "key"%string) = true
  /\ status (step (Some "key"%string) sample_decoder
               (step (Some "key"%string) sample_decoder playing_two Start)
               (UserMediaSettled true)) = CONNECTING
  /\ sessionPromiseRef (step (Some "key"%string) sample_decoder
               (step (Some "key"%string) sample_decoder playing_two Start)
               (UserMediaSettled true)) = Some (3 + nextId playing_two)%nat.
Proof.
  pose proof (start_connects (Some "key"%string) sample_decoder playing_two
                eq_refl) as H.
  cbv zeta in H. destruct H as (H1 & _ & _ & _ & H5 & _).
  split; [reflexivity|]. split; [exact H1 | exact H5].
Defined.

(** X4 (devices refused).  When [getUserMedia] rejects, with or without a
    key and whatever the component holds by then, [startChat] logs the
    failure once, shows ERROR and runs the cleanup: every resource handle
    is null and the cursor 0 afterwards, a stream that was held has its
    tracks stopped, and nothing is acquired, no further [getUserMedia]
    call, no audio context, no connection. *)
Theorem media_denied_fails
    (API_KEY : option string) (decodeAudioData : string -> option AudioBuffer)
    (w : World) :
  let w' := step API_KEY decodeAudioData w (UserMediaSettled false) in
  status w' = ERROR
  /\ released w'
  /\ nextStartTimeRef w' = 0
  /\ logged (trace w') = logged (trace w) ++ ["Failed to start chat:"%string]
  /\ stopped_streams (trace w')
     = stopped_streams (trace w)
       ++ match localStreamRef w with Some s => [s] | None => [] end
  /\ stopped_sources (trace w') = stopped_sources (trace w) ++ playingSourcesRef w
  /\ mediaRequests (trace w') = mediaRequests (trace w)
  /\ contexts (trace w') = contexts (trace w)
  /\ connections (trace w') = connections (trace w).
Proof.
  cbv zeta.
  set (v := with_status ERROR
              (with_trace (trace w ++ [ConsoleError "Failed to start chat:"]) w)).
  destruct (cleanup_calls_quiet v) as (_ & _ & Q3 & Q4 & Q5 & Q6).
  destruct (cleanup_calls_seen 0 v) as (_ & S2 & _ & _ & S5).
  splits; try (apply run_jobs_released); to_handler;
    rewrite startChat_resume_denied; fold v;
    rewrite ?cleanup_status, ?cleanup_cursor, ?cleanup_trace;
    try apply cleanup_released; try reflexivity;
    autorewrite with observers;
    rewrite ?Q3, ?Q4, ?Q5, ?Q6, ?S2, ?S5; unfold v; fields;
    autorewrite with observers; cbn;
    rewrite ?app_nil_r, ?Nat.add_0_r; reflexivity.
Qed.

(** X5 (next).  [handleNext] shows DISCONNECTED and arms the timer, and
    releases nothing: the refs, the cursor and the playing set are as they
    were and no releasing call is made.  The release happens when the timer
    fires [startChat], whose cleanup runs before its [getUserMedia] call and
    releases exactly what [handleNext] found. *)
Theorem next_defers_cleanup
    (API_KEY : option string) (decodeAudioData : string -> option AudioBuffer)
    (w : World) :
  let w1 := step API_KEY decodeAudioData w Next in
  let w2 := step API_KEY decodeAudioData w1 Start in
  status w1 = DISCONNECTED
  /\ localStreamRef w1 = localStreamRef w
  /\ sessionPromiseRef w1 = sessionPromiseRef w
  /\ inputAudioProcessorRef w1 = inputAudioProcessorRef w
  /\ outputAudioContextRef w1 = outputAudioContextRef w
  /\ playingSourcesRef w1 = playingSourcesRef w
  /\ nextStartTimeRef w1 = nextStartTimeRef w
  /\ stopped_streams (trace w1) = stopped_streams (trace w)
  /\ stopped_sources (trace w1) = stopped_sources (trace w)
  /\ context_closes (trace w1) = context_closes (trace w)
  /\ trace (snd (handleNext w)) = trace w ++ [SetTimeout 100]
  /\ trace (snd (startChat_begin (snd (handleNext w))))
     = trace w ++ [SetTimeout 100] ++ cleanup_calls w ++ [GetUserMedia]
  /\ status w2 = CONNECTING
  /\ released w2
  /\ stopped_streams (trace w2)
     = stopped_streams (trace w)
       ++ match localStreamRef w with Some s => [s] | None => [] end
  /\ stopped_sources (trace w2) = stopped_sources (trace w) ++ playingSourcesRef w
  /\ mediaRequests (trace w2) = S (mediaRequests (trace w)).
Proof.
  cbv zeta.
  assert (Hcalls : forall v, cleanup_calls (snd (handleNext v)) = cleanup_calls v)
    by reflexivity.
  destruct (cleanup_calls_quiet w) as (_ & _ & _ & _ & _ & Q6).
  destruct (cleanup_calls_seen 0 w) as (_ & S2 & _ & _ & S5).
  splits.
  all: try (apply run_jobs_released).
  all: repeat (progress (to_handler;
         rewrite ?startChat_begin_world, ?handleNext_run; fields;
         autorewrite with observers jobs)).
  all: try reflexivity.
  all: try (repeat split; fail).
  all: change (cleanup_calls (with_trace (trace w ++ [SetTimeout 100])
                                (with_status DISCONNECTED w)))
         with (cleanup_calls w);
    rewrite ?Q6, ?S2, ?S5; cbn;
    rewrite ?app_nil_r, <- ?app_assoc, ?Nat.add_0_r, ?Nat.add_1_r;
    reflexivity.
Qed.

(** ** Messages beside the audio they schedule *)

Lemma contexts_stops (l : list AudioBufferSourceNode) :
  contexts (map SourceStop l) = [].
Proof. induction l; simpl; auto. Qed.

(** X6 (messages).  Handling a message, whatever it carries and whether
    or not its payload decodes, never changes the status, the stream, the
    session promise, the capture processor or the output context, writes
    nothing to the console, acquires and releases no device, context or
    connection, and queues and makes no call on any session: only the
    cursor, the playing set and the starting and stopping of sources are
    its business. *)
Theorem messages_touch_only_the_scheduler
    (API_KEY : option string) (decodeAudioData : string -> option AudioBuffer)
    (w : World) (message : LiveServerMessage) (currentTime : Z) :
  let w' := step API_KEY decodeAudioData w (Message message currentTime) in
  let h := snd (onmessage decodeAudioData message currentTime w) in
  status w' = status w
  /\ localStream w' = localStream w
  /\ localStreamRef w' = localStreamRef w
  /\ sessionPromiseRef w' = sessionPromiseRef w
  /\ inputAudioProcessorRef w' = inputAudioProcessorRef w
  /\ outputAudioContextRef w' = outputAudioContextRef w
  /\ closedContexts w' = closedContexts w
  /\ logged (trace w') = logged (trace w)
  /\ mediaRequests (trace w') = mediaRequests (trace w)
  /\ contexts (trace w') = contexts (trace w)
  /\ connections (trace w') = connections (trace w)
  /\ stopped_streams (trace w') = stopped_streams (trace w)
  /\ context_closes (trace w') = context_closes (trace w)
  /\ reactions h = reactions w
  /\ forall p, session_calls p (trace h) = session_calls p (trace w).
Proof.
  cbv zeta.
  destruct (quiet_stops 0 (playingSourcesRef w)) as (_ & _ & K3 & K4 & K5 & K6).
  destruct (quiet_stops 0 (set_add (nextId w) (playingSourcesRef w)))
    as (_ & _ & K3' & K4' & K5' & K6').
  splits; try intros p; to_handler; rewrite onmessage_run;
    (destruct (audioData_of message) as [x|err]; [|reflexivity]);
    (destruct (audio_to_play message w) as [a|];
     [rewrite onmessage_audio_run; destruct (decodeAudioData a) as [b|]|]);
    destruct (interrupted_of message); cbv beta iota delta [when ret];
    rewrite ?onmessage_interrupted_run; fields;
    autorewrite with observers;
    rewrite ?logged_stops, ?session_calls_stops, ?contexts_stops, ?K3, ?K4, ?K5, ?K6,
      ?K3', ?K4', ?K5', ?K6';
    cbn; rewrite ?app_nil_r, ?Nat.add_0_r; reflexivity.
Qed.

(** X7 (messages that are ignored, and messages that throw).  A message
    whose optional chain yields no payload or an empty one, or that
    arrives while there is no output context, and which either does not
    carry the interruption flag or finds nothing playing and the cursor at
    0, leaves the world exactly as it is and returns, whatever the decoder
    would do with its payload.  After a cleanup that is so of every
    message whose chain yields a value.  A message whose turn has no
    [parts] is different: reading its payload throws a type error, the
    handler ends there, and the world is as it was, the interruption flag
    of such a message included: it is not looked at. *)
Theorem unplayable_messages_ignored
    (decodeAudioData : string -> option AudioBuffer)
    (w : World) (message : LiveServerMessage) (currentTime : Z)
    (audioData : option string) :
  audioData_of message = Returned audioData ->
  truthy audioData = false \/ outputAudioContextRef w = None ->
  interrupted_of message = false
  \/ (playingSourcesRef w = [] /\ nextStartTimeRef w = 0) ->
  onmessage decodeAudioData message currentTime w = (Returned tt, w)
  /\ onmessage_arrives decodeAudioData message currentTime w = (Returned false, w)
  /\ onmessage decodeAudioData message currentTime (snd (cleanup w))
     = (Returned tt, snd (cleanup w))
  /\ (forall (late : LiveServerMessage) (t : Z) (x : option string),
        audioData_of late = Returned x ->
        onmessage decodeAudioData late t (snd (cleanup w))
        = (Returned tt, snd (cleanup w)))
  /\ (forall (broken : LiveServerMessage) (t : Z) (e : Exn),
        audioData_of broken = Thrown e ->
        e = TypeError
        /\ onmessage decodeAudioData broken t w = (Thrown TypeError, w)).
Proof.
  intros Hdata Haudio Hflag.
  assert (Hquiet : forall (m : LiveServerMessage) (v : World),
            interrupted_of m = false
            \/ (playingSourcesRef v = [] /\ nextStartTimeRef v = 0) ->
            when (interrupted_of m) onmessage_interrupted v = (Returned tt, v)).
  { intros m v Hv. destruct (interrupted_of m); [|reflexivity].
    destruct Hv as [Hv|[Hp Hc]]; [discriminate|].
    cbv beta iota delta [when]. rewrite onmessage_interrupted_run, Hp.
    destruct v; cbn in *; subst. rewrite app_nil_r. reflexivity. }
  assert (Hgen : forall (m : LiveServerMessage) (t : Z) (x : option string)
                   (v : World),
            audioData_of m = Returned x ->
            audio_to_play m v = None ->
            interrupted_of m = false
            \/ (playingSourcesRef v = [] /\ nextStartTimeRef v = 0) ->
            onmessage decodeAudioData m t v = (Returned tt, v)
            /\ onmessage_arrives decodeAudioData m t v = (Returned false, v)).
  { intros m t x v Hm Hplay Hv.
    rewrite onmessage_run, onmessage_arrives_run, Hm, Hplay, (Hquiet m v Hv).
    split; reflexivity. }
  assert (Hclean : forall m, audio_to_play m (snd (cleanup w)) = None).
  { intros m. unfold audio_to_play. rewrite cleanup_run. cbn.
    destruct (audioData_of m) as [[x|]|err]; reflexivity. }
  assert (Hzero : playingSourcesRef (snd (cleanup w)) = []
                  /\ nextStartTimeRef (snd (cleanup w)) = 0)
    by (rewrite cleanup_run; split; reflexivity).
  assert (Hplay : audio_to_play message w = None).
  { unfold audio_to_play. rewrite Hdata.
    destruct Haudio as [H|H].
    - destruct audioData as [x|]; [rewrite H|];
        destruct (outputAudioContextRef w); reflexivity.
    - rewrite H. destruct audioData; reflexivity. }
  splits.
  - apply (Hgen message currentTime audioData w Hdata Hplay Hflag).
  - apply (Hgen message currentTime audioData w Hdata Hplay Hflag).
  - apply (Hgen message currentTime audioData _ Hdata (Hclean message)).
    right. exact Hzero.
  - intros late t x Hlate.
    apply (Hgen late t x _ Hlate (Hclean late)). right. exact Hzero.
  - intros broken t e Hbroken.
    assert (He : e = TypeError).
    { revert Hbroken. unfold audioData_of.
      destruct (serverContent broken) as [content|]; [|discriminate].
      destruct (modelTurn content) as [turn|]; [|discriminate].
      destruct (parts turn) as [[|part rest]|]; try discriminate.
      - destruct (inlineData part); discriminate.
      - intros H. inversion H. reflexivity. }
    subst e. split; [reflexivity|].
    rewrite onmessage_run, Hbroken. reflexivity.
Qed.

(** The theorem at work on [playing_two]: a message with an empty payload
    is ignored, and one whose turn has no [parts] throws and leaves the two
    sources playing although it signals an interruption. *)
Lemma unplayable_messages_ignored_witness :
  audioData_of (audio_message "") = Returned (Some ""%string)
  /\ (truthy (Some ""%string) = false \/ outputAudioContextRef playing_two = None)
  /\ (interrupted_of (audio_message "") = false
      \/ (playingSourcesRef playing_two = [] /\ nextStartTimeRef playing_two = 0))
  /\ onmessage (fun _ => None) (audio_message "") 12 playing_two
     = (Returned tt, playing_two)
  /\ audioData_of partless_message = Thrown TypeError
  /\ interrupted_of partless_message = true
  /\ onmessage (fun _ => None) partless_message 12 playing_two
     = (Thrown TypeError, playing_two).
Proof.
  assert (H1 : truthy (Some ""%string) = false
               \/ outputAudioContextRef playing_two = None)
    by (left; reflexivity).
  assert (H2 : interrupted_of (audio_message "") = false
               \/ (playingSourcesRef playing_two = []
                   /\ nextStartTimeRef playing_two = 0))
    by (left; reflexivity).
  pose proof (unplayable_messages_ignored (fun _ => None) playing_two
                (audio_message "") 12 (Some ""%string) eq_refl H1 H2) as H.
  destruct H as (Hignored & _ & _ & _ & Hbroken).
  split; [reflexivity|]. split; [exact H1|]. split; [exact H2|].
  split; [exact Hignored|]. split; [reflexivity|]. split; [reflexivity|].
  exact (proj2 (Hbroken partless_message 12 TypeError eq_refl)).
Defined.

(** X8 (the ['ended'] listener).  The listener removes its source from the
    playing set and nothing else: every other source stays, the cursor and
    the trace are untouched.  For a source that is not in the set it does
    nothing at all; in particular the ['ended'] events that follow an
    interruption or a cleanup, which stopped and removed every source, do
    nothing. *)
Theorem ended_removes_only_its_source
    (w : World) (source : AudioBufferSourceNode) :
  let w' := snd (onended source w) in
  ~ In source (playingSourcesRef w')
  /\ (forall s, s <> source ->
        (In s (playingSourcesRef w') <-> In s (playingSourcesRef w)))
  /\ (NoDup (playingSourcesRef w) -> NoDup (playingSourcesRef w'))
  /\ nextStartTimeRef w' = nextStartTimeRef w
  /\ trace w' = trace w
  /\ (~ In source (playingSourcesRef w) -> onended source w = (Returned tt, w))
  /\ onended source (snd (onmessage_interrupted w))
     = (Returned tt, snd (onmessage_interrupted w))
  /\ onended source (snd (cleanup w)) = (Returned tt, snd (cleanup w)).
Proof.
  assert (Hid : forall l, ~ In source l -> set_delete source l = l).
  { intros l Hl. unfold set_delete. induction l as [|x l IH]; [reflexivity|].
    cbn. destruct (Nat.eqb_spec source x) as [->|Hx].
    - exfalso. apply Hl. left. reflexivity.
    - cbn. rewrite IH; [reflexivity|]. intros H. apply Hl. right. exact H. }
  assert (Hnoop : forall v, ~ In source (playingSourcesRef v) ->
                    onended source v = (Returned tt, v)).
  { intros v Hv. unfold onended, modify. rewrite (Hid _ Hv).
    destruct v; reflexivity. }
  cbv zeta. splits.
  - apply set_delete_not_In.
  - intros s Hs. cbn. unfold set_delete. rewrite filter_In. split.
    + intros [H _]. exact H.
    + intros H. split; [exact H|].
      apply negb_true_iff, Nat.eqb_neq. congruence.
  - intros H. cbn. unfold set_delete. apply NoDup_filter. exact H.
  - reflexivity.
  - reflexivity.
  - apply Hnoop.
  - apply Hnoop. rewrite onmessage_interrupted_run. cbn. tauto.
  - apply Hnoop. rewrite cleanup_run. cbn. tauto.
Qed.

(** ** Captured frames and the session promise *)

Section Frames.

Variable API_KEY : option string.
Variable decodeAudioData : string -> option AudioBuffer.
Variable p : SessionPromise.

(** One captured frame while [p] is in the ref. *)
Lemma audioprocess_step (pcmBlob : string) (w : World) :
  sessionPromiseRef w = Some p ->
  let w' := step API_KEY decodeAudioData w (AudioProcess pcmBlob) in
  let done := existsb (Nat.eqb p) (resolved w) in
  sessionPromiseRef w' = Some p
  /\ resolved w' = resolved w
  /\ queued_on p (reactions w')
     = (if done then []
        else queued_on p (reactions w) ++ [SendRealtimeInput pcmBlob])
  /\ session_calls p (trace w')
     = session_calls p (trace w)
       ++ (if done
           then map (call_of p) (queued_on p (reactions w))
                ++ [SessionSend p pcmBlob]
           else []).
Proof.
  intros Href. cbv zeta. unfold step. cbn [handler].
  rewrite jobs_sessionPromiseRef, jobs_resolved, run_jobs_reactions,
    run_jobs_trace, session_calls_app, run_reactions_kept,
    run_reactions_calls, onaudioprocess_run, Href.
  fields. rewrite queued_on_app, map_app. cbn. rewrite Nat.eqb_refl.
  splits; try reflexivity. exact Href.
Qed.

Lemma audioprocess_run (blobs : list string) (w : World) :
  sessionPromiseRef w = Some p ->
  (existsb (Nat.eqb p) (resolved w) = true -> queued_on p (reactions w) = []) ->
  let final := run API_KEY decodeAudioData w (map AudioProcess blobs) in
  sessionPromiseRef final = Some p
  /\ resolved final = resolved w
  /\ (if existsb (Nat.eqb p) (resolved w)
      then session_calls p (trace final)
           = session_calls p (trace w) ++ map (SessionSend p) blobs
           /\ queued_on p (reactions final) = []
      else session_calls p (trace final) = session_calls p (trace w)
           /\ queued_on p (reactions final)
              = queued_on p (reactions w) ++ map SendRealtimeInput blobs).
Proof.
  revert w. induction blobs as [|b blobs IH]; intros w Href Hq.
  - cbn. destruct (existsb (Nat.eqb p) (resolved w)) eqn:E;
      rewrite ?app_nil_r; splits; try reflexivity; try exact Href.
    apply Hq. reflexivity.
  - cbn [map]. rewrite run_cons.
    destruct (audioprocess_step b w Href) as (H1 & H2 & H3 & H4).
    cbv zeta in *.
    set (w1 := step API_KEY decodeAudioData w (AudioProcess b)) in *.
    assert (Hq1 : existsb (Nat.eqb p) (resolved w1) = true ->
                  queued_on p (reactions w1) = []).
    { rewrite H2, H3. intros E. rewrite E. reflexivity. }
    destruct (IH w1 H1 Hq1) as (I1 & I2 & I3).
    rewrite H2 in I2, I3.
    destruct (existsb (Nat.eqb p) (resolved w)) eqn:E.
    + destruct I3 as (I3 & I4). rewrite (Hq eq_refl) in H4. cbn in H4.
      cbv iota. splits; try assumption.
      rewrite I3, H4, <- app_assoc. reflexivity.
    + destruct I3 as (I3 & I4). rewrite app_nil_r in H4.
      cbv iota. splits; try assumption; [congruence|].
      rewrite I4, H3, <- app_assoc. reflexivity.
Qed.

End Frames.

(** X9 (frames in capture order).  While a session promise [p] stays in
    the ref, the frames the capture processor hands over are delivered to
    its session in the order captured: when [p] is resolved each frame is
    sent in the turn it was captured; when [p] is pending nothing is sent
    and the frames wait behind what was queued, and the resolution of [p]
    sends them all, oldest first.  A frame captured while no promise is in
    the ref is dropped without a trace. *)
Theorem frames_in_capture_order
    (API_KEY : option string) (decodeAudioData : string -> option AudioBuffer)
    (w : World) (p : SessionPromise) (blobs : list string) :
  sessionPromiseRef w = Some p ->
  (existsb (Nat.eqb p) (resolved w) = true -> queued_on p (reactions w) = []) ->
  let final := run API_KEY decodeAudioData w (map AudioProcess blobs) in
  sessionPromiseRef final = Some p
  /\ (if existsb (Nat.eqb p) (resolved w)
      then session_calls p (trace final)
           = session_calls p (trace w) ++ map (SessionSend p) blobs
           /\ queued_on p (reactions final) = []
      else session_calls p (trace final) = session_calls p (trace w)
           /\ queued_on p (reactions final)
              = queued_on p (reactions w) ++ map SendRealtimeInput blobs)
  /\ session_calls p (trace (step API_KEY decodeAudioData final (Resolved p)))
     = session_calls p (trace w)
       ++ map (call_of p) (queued_on p (reactions w))
       ++ map (SessionSend p) blobs
  /\ forall (v : World) (pcmBlob : string),
       sessionPromiseRef v = None ->
       onaudioprocess pcmBlob v = (Returned tt, v).
Proof.
  intros Href Hq. cbv zeta.
  destruct (audioprocess_run API_KEY decodeAudioData p blobs w Href Hq)
    as (H1 & H2 & H3).
  cbv zeta in *. splits; try assumption.
  - unfold step. cbn [handler modify snd].
    rewrite run_jobs_trace, session_calls_app, run_reactions_calls.
    fields. cbn [existsb]. rewrite Nat.eqb_refl. cbn [orb].
    destruct (existsb (Nat.eqb p) (resolved w)) eqn:E.
    + destruct H3 as (H3 & H4). rewrite H3, H4, (Hq eq_refl). cbn.
      rewrite app_nil_r. reflexivity.
    + destruct H3 as (H3 & H4). rewrite H3, H4, map_app, map_map.
      reflexivity.
  - intros v b Hv. rewrite onaudioprocess_run, Hv.
    destruct v; cbn. rewrite app_nil_r. reflexivity.
Qed.

Lemma frames_in_capture_order_witness :
  sessionPromiseRef connected = Some 3%nat
  /\ (existsb (Nat.eqb 3%nat) (resolved connected) = true ->
      queued_on 3%nat (reactions connected) = [])
  /\ session_calls 3%nat
       (trace (run (Some "key"%string) sample_decoder connected
                 (map AudioProcess ["a"; "b"; "c"]%string)))
     = session_calls 3%nat (trace connected)
       ++ map (SessionSend 3%nat) ["a"; "b"; "c"]%string.
Proof.
  assert (H1 : sessionPromiseRef connected = Some 3%nat) by reflexivity.
  assert (H2 : existsb (Nat.eqb 3%nat) (resolved connected) = true ->
               queued_on 3%nat (reactions connected) = [])
    by (intros _; reflexivity).
  split; [exact H1|]. split; [exact H2|].
  pose proof (frames_in_capture_order (Some "key"%string) sample_decoder
                connected 3%nat ["a"; "b"; "c"]%string H1 H2) as H.
  cbv zeta in H. destruct H as (_ & H & _).
  change (existsb (Nat.eqb 3%nat) (resolved connected)) with true in H.
  exact (proj1 H).
Defined.

(** X10 (every teardown closes the session).  Whichever handler runs the
    cleanup while a session promise [p] is in the ref ([startChat],
    [handleStop], [onerror] or the unmount effect), and whether [p] is
    resolved or still pending, the ref is cleared and the calls ever made
    on the session of [p] afterwards are the ones queued on it so far
    followed by one [close]: in that same turn when [p] is resolved,
    in the turn [p] resolves otherwise, and none if it never does.  No
    later event sends anything on that session. *)
Theorem teardown_closes_session
    (API_KEY : option string) (decodeAudioData : string -> option AudioBuffer)
    (w : World) (e : Event) (p : SessionPromise) (events : list Event) :
  tears_down e = true ->
  sessionPromiseRef w = Some p ->
  (p < nextId w)%nat ->
  let w1 := step API_KEY decodeAudioData w e in
  let final := run API_KEY decodeAudioData w1 events in
  sessionPromiseRef w1 = None
  /\ session_calls p (trace final)
     = session_calls p (trace w)
       ++ (if existsb (Nat.eqb p) (resolved w) || existsb (resolves p) events
           then map (call_of p) (queued_on p (reactions w)) ++ [SessionClose p]
           else []).
Proof.
  intros He Href Hid. cbv zeta.
  set (w1 := step API_KEY decodeAudioData w e).
  assert (Hw1 : sessionPromiseRef w1 = None /\ nextId w1 = nextId w
                /\ resolved w1 = resolved w
                /\ queued_on p (reactions w1)
                   = (if existsb (Nat.eqb p) (resolved w) then []
                      else queued_on p (reactions w) ++ [Close])
                /\ session_calls p (trace w1)
                   = session_calls p (trace w)
                     ++ (if existsb (Nat.eqb p) (resolved w)
                         then map (call_of p) (queued_on p (reactions w))
                              ++ [SessionClose p]
                         else [])).
  { assert (Hq : forall v,
              sessionPromiseRef v = Some p -> reactions v = reactions w ->
              session_calls p (trace v) = session_calls p (trace w) ->
              session_calls p (trace (snd (cleanup v)))
              = session_calls p (trace w)
              /\ reactions (snd (cleanup v)) = reactions w ++ [(p, Close)]).
    { intros v Hv Hr Ht.
      destruct (cleanup_observed v) as (_ & _ & _ & _ & _ & Hc).
      cbv zeta in Hc. rewrite Hc, Ht, cleanup_run. cbn. rewrite Hv, Hr.
      split; reflexivity. }
    unfold w1, step.
    rewrite jobs_sessionPromiseRef, jobs_nextId, jobs_resolved,
      run_jobs_reactions, run_jobs_trace, session_calls_app,
      run_reactions_kept, run_reactions_calls.
    destruct e; try discriminate He; cbn [handler].
    - rewrite startChat_begin_world. fields.
      rewrite !session_calls_app, queued_on_app, Href.
      destruct (cleanup_calls_quiet w) as (Hc & _). rewrite Hc. cbn.
      rewrite Nat.eqb_refl, !app_nil_r, map_app.
      splits; reflexivity.
    - rewrite onerror_run.
      match goal with |- context [cleanup ?v] =>
        destruct (Hq v Href eq_refl) as (Q1 & Q2) end.
      { cbn. rewrite session_calls_app. cbn. apply app_nil_r. }
      rewrite Q1, Q2, cleanup_run. fields.
      rewrite queued_on_app, map_app. cbn. rewrite Nat.eqb_refl.
      splits; reflexivity.
    - rewrite handleStop_run.
      match goal with |- context [cleanup ?v] =>
        destruct (Hq v Href eq_refl eq_refl) as (Q1 & Q2) end.
      rewrite Q1, Q2, cleanup_run. fields.
      rewrite queued_on_app, map_app. cbn. rewrite Nat.eqb_refl.
      splits; reflexivity.
    - destruct (Hq w Href eq_refl eq_refl) as (Q1 & Q2).
      rewrite Q1, Q2, cleanup_run. fields.
      rewrite queued_on_app, map_app. cbn. rewrite Nat.eqb_refl.
      splits; reflexivity. }
  destruct Hw1 as (W1 & W2 & W3 & W4 & W5).
  split; [exact W1|].
  assert (Href1 : sessionPromiseRef w1 <> Some p) by (rewrite W1; discriminate).
  assert (Hid1 : (p < nextId w1)%nat) by (rewrite W2; exact Hid).
  destruct (existsb (Nat.eqb p) (resolved w)) eqn:E; cbn [orb].
  - assert (E1 : existsb (Nat.eqb p) (resolved w1) = true)
      by (rewrite W3; exact E).
    destruct (run_settled API_KEY decodeAudioData p events w1
                Href1 Hid1 E1 W4) as (R1 & _).
    cbv zeta in R1. rewrite R1, W5. reflexivity.
  - assert (E1 : existsb (Nat.eqb p) (resolved w1) = false)
      by (rewrite W3; exact E).
    destruct (run_pending API_KEY decodeAudioData p events w1
                Href1 Hid1 E1) as (R1 & _).
    cbv zeta in R1. rewrite R1, W4, W5, app_nil_r, map_app. reflexivity.
Qed.

Lemma teardown_closes_session_witness :
  tears_down Failure = true
  /\ sessionPromiseRef connected = Some 3%nat
  /\ (3 < nextId connected)%nat
  /\ session_calls 3%nat
       (trace (run (Some "key"%string) sample_decoder
                 (step (Some "key"%string) sample_decoder connected Failure)
                 [AudioProcess "late"; Closed]))
     = session_calls 3%nat (trace connected) ++ [SessionClose 3%nat].
Proof.
  assert (H3 : (3 < nextId connected)%nat) by (vm_compute; lia).
  split; [reflexivity|]. split; [reflexivity|]. split; [exact H3|].
  exact (proj2 (teardown_closes_session (Some "key"%string) sample_decoder
                  connected Failure 3%nat [AudioProcess "late"; Closed]
                  eq_refl eq_refl H3)).
Defined.

(** ** What holds in every world the component reaches *)

Section SourceMoves.

Lemma sources_ok_grow (pl st sp : list nat) (n n' : nat) :
  (n <= n')%nat -> sources_ok pl st sp n -> sources_ok pl st sp n'.
Proof.
  intros Hn (H1 & H2 & H3 & H4 & H5 & H6). unfold sources_ok. splits; auto.
  intros s Hs. specialize (H3 s Hs). lia.
Qed.

(** [createBufferSource], [start], [add]. *)
Lemma sources_ok_enqueue (pl st sp : list nat) (n : nat) :
  sources_ok pl st sp n ->
  sources_ok (set_add n pl) (st ++ [n]) sp (S n).
Proof.
  intros (H1 & H2 & H3 & H4 & H5 & H6).
  assert (Hst : ~ In n st) by (intros H; specialize (H3 n H); lia).
  assert (Hpl : ~ In n pl) by (intros H; apply Hst, (H2 n H)).
  assert (Hadd : set_add n pl = pl ++ [n]).
  { unfold set_add. destruct (existsb (Nat.eqb n) pl) eqn:E; [|reflexivity].
    apply existsb_exists in E. destruct E as (y & Hy & Hny).
    apply Nat.eqb_eq in Hny. subst y. contradiction. }
  rewrite Hadd. unfold sources_ok. splits.
  - apply NoDup_app; [exact H1 | repeat constructor; intros [] |].
    intros x Hx [Hn|[]]. subst x. contradiction.
  - intros s Hs. apply in_app_or in Hs. destruct Hs as [Hs|[Hs|[]]].
    + destruct (H2 s Hs). split; [apply in_or_app; left|]; assumption.
    + subst s. split; [apply in_or_app; right; left; reflexivity|].
      intros H. apply Hst, H6, H.
  - intros s Hs. apply in_app_or in Hs. destruct Hs as [Hs|[Hs|[]]].
    + specialize (H3 s Hs). lia.
    + subst s. lia.
  - apply NoDup_app; [exact H4 | repeat constructor; intros [] |].
    intros x Hx [Hn|[]]. subst x. contradiction.
  - exact H5.
  - intros s Hs. apply in_or_app. left. apply H6, Hs.
Qed.

(** [forEach(stop)], [clear]. *)
Lemma sources_ok_stop_all (pl st sp : list nat) (n : nat) :
  sources_ok pl st sp n -> sources_ok [] st (sp ++ pl) n.
Proof.
  intros (H1 & H2 & H3 & H4 & H5 & H6). unfold sources_ok. splits.
  - constructor.
  - intros s [].
  - exact H3.
  - exact H4.
  - apply NoDup_app; [exact H5 | exact H1 |].
    intros x Hx Hp. apply (H2 x Hp), Hx.
  - intros s Hs. apply in_app_or in Hs. destruct Hs as [Hs|Hs].
    + apply H6, Hs.
    + apply (H2 s Hs).
Qed.

(** [delete]. *)
Lemma sources_ok_delete (x : nat) (pl st sp : list nat) (n : nat) :
  sources_ok pl st sp n -> sources_ok (set_delete x pl) st sp n.
Proof.
  intros (H1 & H2 & H3 & H4 & H5 & H6). unfold sources_ok. splits; auto.
  - unfold set_delete. apply NoDup_filter, H1.
  - intros s Hs. unfold set_delete in Hs. apply filter_In in Hs.
    apply H2, Hs.
Qed.

End SourceMoves.

Section SourcesReached.

Variable API_KEY : option string.
Variable decodeAudioData : string -> option AudioBuffer.

Lemma started_stops (l : list AudioBufferSourceNode) :
  started_sources (map SourceStop l) = [].
Proof. induction l; simpl; auto. Qed.

(** Every turn of the event loop keeps the discipline of the sources. *)
Lemma step_sources (w : World) (e : Event) :
  sources_consistent w ->
  sources_consistent (step API_KEY decodeAudioData w e).
Proof.
  unfold sources_consistent. intros H.
  pose proof (cleanup_calls_seen 0 w) as (Q1 & Q2 & _).
  assert (Hclean : forall v,
            playingSourcesRef v = playingSourcesRef w ->
            started_sources (trace v) = started_sources (trace w) ->
            stopped_sources (trace v) = stopped_sources (trace w) ->
            (nextId w <= nextId v)%nat ->
            sources_ok (playingSourcesRef (snd (cleanup v)))
              (started_sources (trace (snd (cleanup v))))
              (stopped_sources (trace (snd (cleanup v))))
              (nextId (snd (cleanup v)))).
  { intros v Hp Hs Ht Hn.
    pose proof (cleanup_calls_seen 0 v) as (V1 & V2 & _).
    rewrite cleanup_run. fields. autorewrite with observers.
    rewrite V1, V2, Hp, Hs, Ht, app_nil_r.
    apply sources_ok_grow with (n := nextId w); [exact Hn|].
    apply sources_ok_stop_all, H. }
  destruct e; to_handler.
  - rewrite startChat_begin_world. fields. autorewrite with observers.
    rewrite Q1, Q2. cbn. rewrite !app_nil_r.
    apply sources_ok_stop_all, H.
  - destruct granted.
    + destruct (truthy API_KEY) eqn:Hkey.
      * rewrite (startChat_resume_connects API_KEY w Hkey). fields.
        autorewrite with observers. cbn. rewrite !app_nil_r.
        apply sources_ok_grow with (n := nextId w); [lia | exact H].
      * rewrite (startChat_resume_no_key API_KEY w Hkey).
        apply Hclean; fields; autorewrite with observers; cbn;
          rewrite ?app_nil_r; try reflexivity; try lia.
    + rewrite startChat_resume_denied.
      apply Hclean; fields; autorewrite with observers; cbn;
        rewrite ?app_nil_r; try reflexivity; try lia.
  - rewrite onopen_run. fields. autorewrite with observers. cbn.
    rewrite !app_nil_r.
    apply sources_ok_grow with (n := nextId w); [lia | exact H].
  - rewrite onaudioprocess_run. fields. exact H.
  - rewrite onmessage_run.
    destruct (audioData_of message) as [x|err]; [|fields; exact H].
    destruct (audio_to_play message w) as [a|].
    + rewrite onmessage_audio_run.
      destruct (decodeAudioData a) as [b|].
      * destruct (interrupted_of message); cbv beta iota delta [when ret].
        -- rewrite onmessage_interrupted_run. fields.
           autorewrite with observers.
           rewrite started_stops, stopped_sources_stops. cbn.
           rewrite !app_nil_r.
           apply sources_ok_stop_all, sources_ok_enqueue, H.
        -- fields. autorewrite with observers. cbn. rewrite !app_nil_r.
           apply sources_ok_enqueue, H.
      * fields. exact H.
    + destruct (interrupted_of message); cbv beta iota delta [when ret].
      * rewrite onmessage_interrupted_run. fields.
        autorewrite with observers.
        rewrite started_stops, stopped_sources_stops, !app_nil_r.
        apply sources_ok_stop_all, H.
      * fields. exact H.
  - rewrite onerror_run.
    apply Hclean; fields; autorewrite with observers; cbn;
      rewrite ?app_nil_r; try reflexivity; try lia.
  - rewrite onclose_run. fields. exact H.
  - rewrite handleStop_run. apply Hclean; try reflexivity; cbn; try lia.
  - rewrite handleNext_run. fields. autorewrite with observers. cbn.
    rewrite !app_nil_r. exact H.
  - cbn. apply sources_ok_delete, H.
  - cbn. exact H.
  - apply Hclean; try reflexivity; try lia.
  - rewrite handler_arrives.
    destruct (audioData_of message) as [x|err]; [|exact H].
    destruct (audio_to_play message w) as [a|]; [fields; exact H|].
    destruct (interrupted_of message); cbv beta iota delta [when ret].
    + rewrite onmessage_interrupted_run. fields.
      autorewrite with observers.
      rewrite started_stops, stopped_sources_stops, !app_nil_r.
      apply sources_ok_stop_all, H.
    + fields. exact H.
  - rewrite onmessage_resumes_run.
    destruct (resumed_with decodeAudioData message) as [b|]; [|fields; exact H].
    rewrite onmessage_audio_resume_run.
    destruct (interrupted_of message); cbv beta iota delta [when ret].
    + rewrite onmessage_interrupted_run. fields.
      autorewrite with observers.
      rewrite started_stops, stopped_sources_stops. cbn.
      rewrite !app_nil_r.
      apply sources_ok_stop_all, sources_ok_enqueue, H.
    + fields. autorewrite with observers. cbn. rewrite !app_nil_r.
      apply sources_ok_enqueue, H.
Qed.

Lemma run_sources (events : list Event) (w : World) :
  sources_consistent w ->
  sources_consistent (run API_KEY decodeAudioData w events).
Proof.
  revert w. induction events as [|e events IH]; intros w H; [exact H|].
  rewrite run_cons. apply IH, step_sources, H.
Qed.

End SourcesReached.

(** X11 (the playing sources).  In every world the component reaches from
    its mount, by whatever events in whatever order: the playing set has no
    duplicate, every source in it has been started and has not been
    stopped, [stop] has only ever been called on sources that had been
    started, and no source has been started twice or stopped twice. *)
Theorem playing_sources_discipline
    (API_KEY : option string) (decodeAudioData : string -> option AudioBuffer)
    (events : list Event) :
  let w := run API_KEY decodeAudioData initial events in
  NoDup (playingSourcesRef w)
  /\ (forall s, In s (playingSourcesRef w) ->
        In s (started_sources (trace w)) /\ ~ In s (stopped_sources (trace w)))
  /\ incl (stopped_sources (trace w)) (started_sources (trace w))
  /\ NoDup (started_sources (trace w))
  /\ NoDup (stopped_sources (trace w)).
Proof.
  cbv zeta.
  assert (H0 : sources_consistent initial).
  { unfold sources_consistent, sources_ok. cbn.
    splits; first [apply NoDup_nil | intros x []]. }
  destruct (run_sources API_KEY decodeAudioData events initial H0)
    as (H1 & H2 & H3 & H4 & H5 & H6).
  splits; assumption.
Qed.

Section ContextMoves.

Lemma contexts_ok_grow (ref : option nat) (closed closes low high : list nat)
    (n n' : nat) :
  (n <= n')%nat ->
  contexts_ok ref closed closes low high n ->
  contexts_ok ref closed closes low high n'.
Proof.
  intros Hn (H1 & H2 & H3 & H4 & H5 & H6). unfold contexts_ok. splits; auto.
  intros c Hc. specialize (H1 c Hc). lia.
Qed.

(** The last block of [cleanup]: [close] unless closed, and the ref
    nulled. *)
Lemma contexts_ok_cleanup (ref : option nat)
    (closed closes low high : list nat) (n : nat) :
  contexts_ok ref closed closes low high n ->
  contexts_ok None
    (match ref with
     | Some ctx => if existsb (Nat.eqb ctx) closed then closed else ctx :: closed
     | None => closed
     end)
    (closes ++ match ref with
               | Some ctx => if existsb (Nat.eqb ctx) closed then [] else [ctx]
               | None => []
               end)
    low high n.
Proof.
  intros (H1 & H2 & H3 & H4 & H5 & H6).
  assert (Hsame : contexts_ok None closed (closes ++ []) low high n).
  { rewrite app_nil_r. unfold contexts_ok. splits; auto. discriminate. }
  destruct ref as [c|]; [|exact Hsame].
  destruct (existsb (Nat.eqb c) closed) eqn:E; [exact Hsame|].
  assert (Hc : ~ In c closed).
  { intros Hin. assert (existsb (Nat.eqb c) closed = true); [|congruence].
    apply existsb_exists. exists c. split; [exact Hin | apply Nat.eqb_refl]. }
  unfold contexts_ok. splits; auto.
  - discriminate.
  - intros x. rewrite in_app_iff. cbn. rewrite <- (H3 x). tauto.
  - apply NoDup_app; [exact H4 | repeat constructor; intros [] |].
    intros x Hx [Hxc|[]]. subst x. apply Hc, H3, Hx.
  - intros x Hx. apply in_app_or in Hx. destruct Hx as [Hx|[Hx|[]]].
    + apply H5, Hx.
    + subst x. apply H2. reflexivity.
Qed.

(** The two [new AudioContext] of [startChat] and the assignment of the
    second to the ref. *)
Lemma contexts_ok_connect (ref : option nat)
    (closed closes low high : list nat) (n : nat) :
  contexts_ok ref closed closes low high n ->
  contexts_ok (Some (2 + n)%nat) closed closes
    (low ++ [(1 + n)%nat]) (high ++ [(2 + n)%nat]) (4 + n)%nat.
Proof.
  intros (H1 & H2 & H3 & H4 & H5 & H6). unfold contexts_ok. splits.
  - intros c [Hc|Hc]; apply in_app_or in Hc; destruct Hc as [Hc|[Hc|[]]];
      try (subst c; lia).
    + specialize (H1 c (or_introl Hc)). lia.
    + specialize (H1 c (or_intror Hc)). lia.
  - intros c Hc. inversion Hc; subst. apply in_or_app. right. left. reflexivity.
  - exact H3.
  - exact H4.
  - intros c Hc. apply in_or_app. left. apply H5, Hc.
  - intros c Hc Hh. apply in_app_or in Hc. apply in_app_or in Hh.
    destruct Hc as [Hc|[Hc|[]]], Hh as [Hh|[Hh|[]]].
    + apply (H6 c Hc Hh).
    + subst c. specialize (H1 _ (or_introl Hc)). lia.
    + subst c. specialize (H1 _ (or_intror Hh)). lia.
    + subst c. lia.
Qed.

End ContextMoves.

Section ContextsReached.

Variable API_KEY : option string.
Variable decodeAudioData : string -> option AudioBuffer.

Lemma contexts_at_stops (rate : Z) (l : list AudioBufferSourceNode) :
  contexts_at rate (map SourceStop l) = [].
Proof. induction l; simpl; auto. Qed.

Lemma context_closes_stops (l : list AudioBufferSourceNode) :
  context_closes (map SourceStop l) = [].
Proof. induction l; simpl; auto. Qed.

(** Every turn of the event loop keeps the discipline of the contexts. *)
Lemma step_contexts (w : World) (e : Event) :
  contexts_consistent w ->
  contexts_consistent (step API_KEY decodeAudioData w e).
Proof.
  unfold contexts_consistent. intros H.
  assert (Hclean : forall v,
            outputAudioContextRef v = outputAudioContextRef w ->
            closedContexts v = closedContexts w ->
            context_closes (trace v) = context_closes (trace w) ->
            contexts_at 16000 (trace v) = contexts_at 16000 (trace w) ->
            contexts_at 24000 (trace v) = contexts_at 24000 (trace w) ->
            (nextId w <= nextId v)%nat ->
            contexts_ok (outputAudioContextRef (snd (cleanup v)))
              (closedContexts (snd (cleanup v)))
              (context_closes (trace (snd (cleanup v))))
              (contexts_at 16000 (trace (snd (cleanup v))))
              (contexts_at 24000 (trace (snd (cleanup v))))
              (nextId (snd (cleanup v)))).
  { intros v Ho Hc Hcl H16 H24 Hn.
    pose proof (cleanup_calls_seen 16000 v) as (_ & _ & V16 & V4 & _).
    pose proof (cleanup_calls_seen 24000 v) as (_ & _ & V24 & _).
    rewrite cleanup_run. fields. autorewrite with observers.
    rewrite V16, V24, V4, Ho, Hc, Hcl, H16, H24, !app_nil_r.
    apply contexts_ok_grow with (n := nextId w); [exact Hn|].
    apply contexts_ok_cleanup, H. }
  assert (Hsame : forall v,
            outputAudioContextRef v = outputAudioContextRef w ->
            closedContexts v = closedContexts w ->
            context_closes (trace v) = context_closes (trace w) ->
            contexts_at 16000 (trace v) = contexts_at 16000 (trace w) ->
            contexts_at 24000 (trace v) = contexts_at 24000 (trace w) ->
            (nextId w <= nextId v)%nat ->
            contexts_ok (outputAudioContextRef v) (closedContexts v)
              (context_closes (trace v)) (contexts_at 16000 (trace v))
              (contexts_at 24000 (trace v)) (nextId v)).
  { intros v Ho Hc Hcl H16 H24 Hn. rewrite Ho, Hc, Hcl, H16, H24.
    apply contexts_ok_grow with (n := nextId w); [exact Hn | exact H]. }
  destruct e; to_handler.
  - rewrite startChat_begin_run. fields. autorewrite with observers. cbn.
    rewrite !app_nil_r. apply Hclean; try reflexivity; try lia.
  - destruct granted.
    + destruct (truthy API_KEY) eqn:Hkey.
      * rewrite (startChat_resume_connects API_KEY w Hkey). fields.
        autorewrite with observers. cbn. rewrite !app_nil_r.
        apply (contexts_ok_connect _ _ _ _ _ _ H).
      * rewrite (startChat_resume_no_key API_KEY w Hkey).
        apply Hclean; fields; autorewrite with observers; cbn;
          rewrite ?app_nil_r; try reflexivity; try lia.
    + rewrite startChat_resume_denied.
      apply Hclean; fields; autorewrite with observers; cbn;
        rewrite ?app_nil_r; try reflexivity; try lia.
  - rewrite onopen_run.
    apply Hsame; fields; autorewrite with observers; cbn;
      rewrite ?app_nil_r; try reflexivity; try lia.
  - rewrite onaudioprocess_run. apply Hsame; try reflexivity; cbn; try lia.
  - message_cases;
      apply Hsame; fields; autorewrite with observers;
      rewrite ?contexts_at_stops, ?context_closes_stops; cbn;
      rewrite ?app_nil_r; try reflexivity; try lia.
  - rewrite onerror_run.
    apply Hclean; fields; autorewrite with observers; cbn;
      rewrite ?app_nil_r; try reflexivity; try lia.
  - rewrite onclose_run. apply Hsame; try reflexivity; cbn; try lia.
  - rewrite handleStop_run. apply Hclean; try reflexivity; cbn; try lia.
  - rewrite handleNext_run.
    apply Hsame; fields; autorewrite with observers; cbn;
      rewrite ?app_nil_r; try reflexivity; try lia.
  - apply Hsame; try reflexivity; cbn; try lia.
  - apply Hsame; try reflexivity; cbn; try lia.
  - apply Hclean; try reflexivity; try lia.
  - message_cases;
      apply Hsame; fields; autorewrite with observers;
      rewrite ?contexts_at_stops, ?context_closes_stops; cbn;
      rewrite ?app_nil_r; try reflexivity; try lia.
  - message_cases;
      apply Hsame; fields; autorewrite with observers;
      rewrite ?contexts_at_stops, ?context_closes_stops; cbn;
      rewrite ?app_nil_r; try reflexivity; try lia.
Qed.

Lemma run_contexts (events : list Event) (w : World) :
  contexts_consistent w ->
  contexts_consistent (run API_KEY decodeAudioData w events).
Proof.
  revert w. induction events as [|e events IH]; intros w H; [exact H|].
  rewrite run_cons. apply IH, step_contexts, H.
Qed.

End ContextsReached.

(** X12 (the audio contexts).  In every world the component reaches from
    its mount: [close] has only been called on contexts built at 24 kHz,
    the output contexts, and on none of them twice; the context in the
    output ref is one of those; and no context built at 16 kHz, the input
    context of a start, has ever been closed. *)
Theorem input_context_never_closed
    (API_KEY : option string) (decodeAudioData : string -> option AudioBuffer)
    (events : list Event) :
  let w := run API_KEY decodeAudioData initial events in
  incl (context_closes (trace w)) (contexts_at 24000 (trace w))
  /\ NoDup (context_closes (trace w))
  /\ (forall c, outputAudioContextRef w = Some c ->
        In c (contexts_at 24000 (trace w)))
  /\ (forall c, In c (contexts_at 16000 (trace w)) ->
        ~ In c (context_closes (trace w))).
Proof.
  cbv zeta.
  assert (H0 : contexts_consistent initial).
  { unfold contexts_consistent, contexts_ok. cbn. splits.
    - intros c [[]|[]].
    - discriminate.
    - tauto.
    - apply NoDup_nil.
    - intros x [].
    - intros x []. }
  destruct (run_contexts API_KEY decodeAudioData events initial H0)
    as (H1 & H2 & H3 & H4 & H5 & H6).
  splits; try assumption.
  intros c Hc Hcl. apply (H6 c Hc), H5, Hcl.
Qed.

Section StreamMoves.

Lemma streams_ok_grow (shown held : option nat) (stopped : list nat)
    (n n' : nat) :
  (n <= n')%nat -> streams_ok shown held stopped n ->
  streams_ok shown held stopped n'.
Proof.
  intros Hn (H1 & H2 & H3 & H4). unfold streams_ok. splits; auto.
  - intros s Hs. destruct (H2 s Hs). split; [lia | assumption].
  - intros s Hs. specialize (H3 s Hs). lia.
Qed.

(** The first block of [cleanup]. *)
Lemma streams_ok_cleanup (shown held : option nat) (stopped : list nat)
    (n : nat) :
  streams_ok shown held stopped n ->
  streams_ok (match held with Some _ => None | None => shown end) None
    (stopped ++ match held with Some s => [s] | None => [] end) n.
Proof.
  intros (H1 & H2 & H3 & H4). subst shown. unfold streams_ok.
  destruct held as [s|].
  - destruct (H2 s eq_refl) as (Hn & Hs). splits.
    + reflexivity.
    + discriminate.
    + intros x Hx. apply in_app_or in Hx. destruct Hx as [Hx|[Hx|[]]].
      * apply H3, Hx.
      * subst x. exact Hn.
    + apply NoDup_app; [exact H4 | repeat constructor; intros [] |].
      intros x Hx [Hxs|[]]. subst x. contradiction.
  - rewrite app_nil_r. splits; auto; discriminate.
Qed.

(** The stream [getUserMedia] resolved with, put in the ref and in the
    state. *)
Lemma streams_ok_acquire (shown held : option nat) (stopped : list nat)
    (n : nat) :
  streams_ok shown held stopped n ->
  streams_ok (Some n) (Some n) stopped (S n).
Proof.
  intros (H1 & H2 & H3 & H4). unfold streams_ok. splits; auto.
  - intros s Hs. inversion Hs; subst. split; [lia|].
    intros Hin. specialize (H3 _ Hin). lia.
  - intros s Hs. specialize (H3 s Hs). lia.
Qed.

End StreamMoves.

Section StreamsReached.

Variable API_KEY : option string.
Variable decodeAudioData : string -> option AudioBuffer.

Lemma stopped_streams_stops (l : list AudioBufferSourceNode) :
  stopped_streams (map SourceStop l) = [].
Proof. induction l; simpl; auto. Qed.

(** Every turn of the event loop keeps the discipline of the stream. *)
Lemma step_streams (w : World) (e : Event) :
  streams_consistent w ->
  streams_consistent (step API_KEY decodeAudioData w e).
Proof.
  unfold streams_consistent. intros H.
  assert (Hclean : forall v,
            streams_ok (localStream v) (localStreamRef v)
              (stopped_streams (trace v)) (nextId v) ->
            streams_ok (localStream (snd (cleanup v)))
              (localStreamRef (snd (cleanup v)))
              (stopped_streams (trace (snd (cleanup v))))
              (nextId (snd (cleanup v)))).
  { intros v Hv.
    pose proof (cleanup_calls_seen 0 v) as (_ & _ & _ & _ & V5).
    rewrite cleanup_run. fields. autorewrite with observers. rewrite V5.
    apply streams_ok_cleanup, Hv. }
  assert (Hsame : forall v,
            localStream v = localStream w ->
            localStreamRef v = localStreamRef w ->
            stopped_streams (trace v) = stopped_streams (trace w) ->
            (nextId w <= nextId v)%nat ->
            streams_ok (localStream v) (localStreamRef v)
              (stopped_streams (trace v)) (nextId v)).
  { intros v Hs Hr Ht Hn. rewrite Hs, Hr, Ht.
    apply streams_ok_grow with (n := nextId w); [exact Hn | exact H]. }
  destruct e; to_handler.
  - rewrite startChat_begin_run. fields. autorewrite with observers. cbn.
    rewrite !app_nil_r. apply Hclean, H.
  - destruct granted.
    + destruct (truthy API_KEY) eqn:Hkey.
      * rewrite (startChat_resume_connects API_KEY w Hkey). fields.
        autorewrite with observers. cbn. rewrite !app_nil_r.
        apply streams_ok_grow with (n := S (nextId w)); [lia|].
        apply (streams_ok_acquire _ _ _ _ H).
      * rewrite (startChat_resume_no_key API_KEY w Hkey).
        apply Hclean. fields. autorewrite with observers. cbn.
        rewrite !app_nil_r. apply (streams_ok_acquire _ _ _ _ H).
    + rewrite startChat_resume_denied.
      apply Hclean. fields. autorewrite with observers. cbn.
      rewrite !app_nil_r. exact H.
  - rewrite onopen_run.
    apply Hsame; fields; autorewrite with observers; cbn;
      rewrite ?app_nil_r; try reflexivity; try lia.
  - rewrite onaudioprocess_run. apply Hsame; try reflexivity; cbn; try lia.
  - message_cases;
      apply Hsame; fields; autorewrite with observers;
      rewrite ?stopped_streams_stops; cbn;
      rewrite ?app_nil_r; try reflexivity; try lia.
  - rewrite onerror_run.
    apply Hclean. fields. autorewrite with observers. cbn.
    rewrite !app_nil_r. exact H.
  - rewrite onclose_run. apply Hsame; try reflexivity; cbn; try lia.
  - rewrite handleStop_run. apply Hclean. exact H.
  - rewrite handleNext_run.
    apply Hsame; fields; autorewrite with observers; cbn;
      rewrite ?app_nil_r; try reflexivity; try lia.
  - apply Hsame; try reflexivity; cbn; try lia.
  - apply Hsame; try reflexivity; cbn; try lia.
  - apply Hclean, H.
  - message_cases;
      apply Hsame; fields; autorewrite with observers;
      rewrite ?stopped_streams_stops; cbn;
      rewrite ?app_nil_r; try reflexivity; try lia.
  - message_cases;
      apply Hsame; fields; autorewrite with observers;
      rewrite ?stopped_streams_stops; cbn;
      rewrite ?app_nil_r; try reflexivity; try lia.
Qed.

Lemma run_streams (events : list Event) (w : World) :
  streams_consistent w ->
  streams_consistent (run API_KEY decodeAudioData w events).
Proof.
  revert w. induction events as [|e events IH]; intros w H; [exact H|].
  rewrite run_cons. apply IH, step_streams, H.
Qed.

End StreamsReached.

(** X13 (the media stream).  In every world the component reaches from
    its mount: the [localStream] state, which [VideoFeed] shows, is the
    stream in [localStreamRef]; a stream held in the ref has not had its
    tracks stopped; and no stream has had its tracks stopped twice. *)
Theorem stream_shown_is_stream_held
    (API_KEY : option string) (decodeAudioData : string -> option AudioBuffer)
    (events : list Event) :
  let w := run API_KEY decodeAudioData initial events in
  localStream w = localStreamRef w
  /\ (forall s, localStreamRef w = Some s ->
        ~ In s (stopped_streams (trace w)))
  /\ NoDup (stopped_streams (trace w)).
Proof.
  cbv zeta.
  assert (H0 : streams_consistent initial).
  { unfold streams_consistent, streams_ok. cbn. splits.
    - reflexivity.
    - discriminate.
    - intros x [].
    - apply NoDup_nil. }
  destruct (run_streams API_KEY decodeAudioData events initial H0)
    as (H1 & H2 & H3 & H4).
  splits; try assumption.
  intros s Hs. apply (H2 s Hs).
Qed.

(** ** The status *)

Lemma onmessage_keeps_status
    (API_KEY : option string) (decodeAudioData : string -> option AudioBuffer)
    (v : World) (message : LiveServerMessage) (currentTime : Z) :
  status (snd (onmessage decodeAudioData message currentTime v)) = status v.
Proof.
  message_cases; reflexivity.
Qed.

(** X14 (the transitions of the status).  What each event makes of the
    status: [startChat] shows CONNECTING at once, and ERROR when the
    devices are refused or the key is missing once they are granted;
    [onopen] shows CONNECTED and [onerror] ERROR whatever the status was;
    stop and next show DISCONNECTED; [onclose] turns CONNECTING and
    CONNECTED into DISCONNECTED and leaves the rest; messages, handled in
    one go or in two parts, captured frames, ended sources, the resolution
    of the promise and the unmount never change it.  No event leads back to IDLE: once the status has
    left IDLE it never returns to it. *)
Theorem status_transitions
    (API_KEY : option string) (decodeAudioData : string -> option AudioBuffer)
    (w : World) (e : Event) :
  status (step API_KEY decodeAudioData w e)
  = match e with
    | Start => CONNECTING
    | UserMediaSettled granted =>
        if granted && truthy API_KEY then status w else ERROR
    | Open => CONNECTED
    | Failure => ERROR
    | Stop | Next => DISCONNECTED
    | Closed =>
        match status w with
        | CONNECTING | CONNECTED => DISCONNECTED
        | other => other
        end
    | AudioProcess _ | Message _ _ | Arrives _ _ | Resumes _
    | Ended _ | Resolved _ | Unmount => status w
    end
  /\ forall events : list Event,
       status w <> IDLE ->
       status (run API_KEY decodeAudioData w events) <> IDLE.
Proof.
  assert (Htable : forall v e',
    status (step API_KEY decodeAudioData v e')
    = match e' with
      | Start => CONNECTING
      | UserMediaSettled granted =>
          if granted && truthy API_KEY then status v else ERROR
      | Open => CONNECTED
      | Failure => ERROR
      | Stop | Next => DISCONNECTED
      | Closed =>
          match status v with
          | CONNECTING | CONNECTED => DISCONNECTED
          | other => other
          end
      | AudioProcess _ | Message _ _ | Arrives _ _ | Resumes _
      | Ended _ | Resolved _ | Unmount => status v
      end).
  { intros v e'. destruct e'; to_handler.
    - rewrite startChat_begin_run. reflexivity.
    - destruct granted; cbn [andb].
      + destruct (truthy API_KEY) eqn:Hkey.
        * rewrite (startChat_resume_connects API_KEY v Hkey). reflexivity.
        * rewrite (startChat_resume_no_key API_KEY v Hkey), cleanup_status.
          reflexivity.
      + rewrite startChat_resume_denied, cleanup_status. reflexivity.
    - rewrite onopen_run. reflexivity.
    - rewrite onaudioprocess_run. reflexivity.
    - apply (onmessage_keeps_status API_KEY decodeAudioData v message currentTime).
    - rewrite onerror_run, cleanup_status. reflexivity.
    - rewrite onclose_run. reflexivity.
    - rewrite handleStop_run, cleanup_status. reflexivity.
    - reflexivity.
    - reflexivity.
    - reflexivity.
    - apply cleanup_status.
    - message_cases; reflexivity.
    - message_cases; reflexivity. }
  split; [apply Htable|].
  intros events. revert w. induction events as [|e' events IH]; intros w Hw.
  - exact Hw.
  - rewrite run_cons. apply IH. rewrite Htable.
    destruct e'; try discriminate; try exact Hw.
    + destruct (granted && truthy API_KEY); [exact Hw | discriminate].
    + destruct (status w); try discriminate. congruence.
Qed.

(** X15 ([onopen] after a stop).  [onopen] has no guard.  When it arrives
    after [handleStop], in any world, it shows CONNECTED, so that Stop and
    Next are offered again, and installs two new capture nodes, while the
    stream, the session promise and the output context stay null: frames
    the new processor hands over are dropped, and messages without the
    interruption flag are ignored, those that throw when their payload is
    read included: the world stays as it is.  A second stop disconnects
    the two nodes and leaves everything null. *)
Theorem onopen_after_stop
    (API_KEY : option string) (decodeAudioData : string -> option AudioBuffer)
    (w : World) :
  let w1 := step API_KEY decodeAudioData w Stop in
  let w2 := step API_KEY decodeAudioData w1 Open in
  let w3 := step API_KEY decodeAudioData w2 Stop in
  status w2 = CONNECTED
  /\ map onClick (Controls (status w2)) = [OnStop; OnNext]
  /\ inputAudioProcessorRef w2 = Some (nextId w, S (nextId w))
  /\ localStreamRef w2 = None
  /\ sessionPromiseRef w2 = None
  /\ outputAudioContextRef w2 = None
  /\ playingSourcesRef w2 = []
  /\ (forall pcmBlob, onaudioprocess pcmBlob w2 = (Returned tt, w2))
  /\ (forall message currentTime,
        interrupted_of message = false ->
        onmessage decodeAudioData message currentTime w2
        = (match audioData_of message with
           | Returned _ => Returned tt
           | Thrown e => Thrown e
           end, w2))
  /\ released w3
  /\ status w3 = DISCONNECTED
  /\ trace (snd (handleStop w2))
     = trace w2 ++ [NodeDisconnect (S (nextId w)); NodeDisconnect (nextId w)].
Proof.
  cbv zeta.
  set (w1 := step API_KEY decodeAudioData w Stop).
  set (w2 := step API_KEY decodeAudioData w1 Open).
  assert (H1 : released w1 /\ nextId w1 = nextId w).
  { unfold w1. split; [apply run_jobs_released|]; to_handler;
      rewrite handleStop_run; [apply cleanup_released|].
    rewrite cleanup_run. reflexivity. }
  destruct H1 as ((R1 & R2 & R3 & R4 & R5) & N1).
  assert (H2 : status w2 = CONNECTED
               /\ inputAudioProcessorRef w2 = Some (nextId w, S (nextId w))
               /\ localStreamRef w2 = None
               /\ sessionPromiseRef w2 = None
               /\ outputAudioContextRef w2 = None
               /\ playingSourcesRef w2 = []).
  { unfold w2. splits; to_handler; rewrite onopen_run; fields;
      rewrite ?N1; try reflexivity; assumption. }
  destruct H2 as (S2 & P2 & L2 & Q2 & O2 & Y2).
  splits; try assumption.
  - rewrite S2. reflexivity.
  - intros b. rewrite onaudioprocess_run, Q2.
    destruct w2; cbn. rewrite app_nil_r. reflexivity.
  - intros message t Hflag. rewrite onmessage_run, Hflag.
    unfold audio_to_play. rewrite O2.
    destruct (audioData_of message) as [[x|]|err]; reflexivity.
  - apply run_jobs_released. cbn [handler]. rewrite handleStop_run.
    apply cleanup_released.
  - to_handler. rewrite handleStop_run, cleanup_status. reflexivity.
  - rewrite handleStop_run, cleanup_trace. unfold cleanup_calls. fields.
    rewrite L2, P2, O2, Y2. reflexivity.
Qed.

(** ** A stream that is replaced *)

Section ReplacedStream.

Variable API_KEY : option string.
Variable decodeAudioData : string -> option AudioBuffer.

(** The stream under study. *)
Variable s : MediaStream.

(** Tracks are only stopped on the stream in the ref, and the ref only
    takes new streams: a stream that has left the ref is out of reach. *)
Lemma step_stream_frame (w : World) (e : Event) :
  localStreamRef w <> Some s -> (s < nextId w)%nat ->
  let w' := step API_KEY decodeAudioData w e in
  localStreamRef w' <> Some s
  /\ (s < nextId w')%nat
  /\ (In s (stopped_streams (trace w')) -> In s (stopped_streams (trace w))).
Proof.
  intros Href Hid.
  assert (Hclean : forall v,
            localStreamRef v <> Some s -> (s < nextId v)%nat ->
            (In s (stopped_streams (trace v)) ->
             In s (stopped_streams (trace w))) ->
            localStreamRef (snd (cleanup v)) <> Some s
            /\ (s < nextId (snd (cleanup v)))%nat
            /\ (In s (stopped_streams (trace (snd (cleanup v)))) ->
                In s (stopped_streams (trace w)))).
  { intros v Hv Hn Ht.
    pose proof (cleanup_calls_seen 0 v) as (_ & _ & _ & _ & V5).
    rewrite cleanup_run. fields. autorewrite with observers. rewrite V5.
    splits; [discriminate | exact Hn |].
    intros Hin. apply in_app_or in Hin. destruct Hin as [Hin|Hin].
    - apply Ht, Hin.
    - destruct (localStreamRef v) as [x|]; [|destruct Hin].
      destruct Hin as [Hx|[]]. subst x. exfalso. apply Hv. reflexivity. }
  assert (Hsame : forall v,
            localStreamRef v = localStreamRef w ->
            stopped_streams (trace v) = stopped_streams (trace w) ->
            (nextId w <= nextId v)%nat ->
            localStreamRef v <> Some s /\ (s < nextId v)%nat
            /\ (In s (stopped_streams (trace v)) ->
                In s (stopped_streams (trace w)))).
  { intros v Hr Ht Hn. rewrite Hr, Ht. splits; [exact Href | lia | tauto]. }
  cbv zeta. destruct e; to_handler.
  - rewrite startChat_begin_run. fields. autorewrite with observers. cbn.
    rewrite !app_nil_r. apply Hclean; tauto.
  - destruct granted.
    + destruct (truthy API_KEY) eqn:Hkey.
      * rewrite (startChat_resume_connects API_KEY w Hkey). fields.
        autorewrite with observers. cbn. rewrite !app_nil_r.
        splits; [|lia|tauto]. intros H. inversion H. lia.
      * rewrite (startChat_resume_no_key API_KEY w Hkey).
        apply Hclean; fields; autorewrite with observers; cbn;
          rewrite ?app_nil_r; [|lia|tauto].
        intros H. inversion H. lia.
    + rewrite startChat_resume_denied.
      apply Hclean; fields; autorewrite with observers; cbn;
        rewrite ?app_nil_r; tauto.
  - rewrite onopen_run.
    apply Hsame; fields; autorewrite with observers; cbn;
      rewrite ?app_nil_r; try reflexivity; try lia.
  - rewrite onaudioprocess_run. apply Hsame; try reflexivity; cbn; try lia.
  - message_cases;
      apply Hsame; fields; autorewrite with observers;
      rewrite ?stopped_streams_stops; cbn;
      rewrite ?app_nil_r; try reflexivity; try lia.
  - rewrite onerror_run.
    apply Hclean; fields; autorewrite with observers; cbn;
      rewrite ?app_nil_r; tauto.
  - rewrite onclose_run. apply Hsame; try reflexivity; cbn; try lia.
  - rewrite handleStop_run. apply Hclean; tauto.
  - rewrite handleNext_run.
    apply Hsame; fields; autorewrite with observers; cbn;
      rewrite ?app_nil_r; try reflexivity; try lia.
  - apply Hsame; try reflexivity; cbn; try lia.
  - apply Hsame; try reflexivity; cbn; try lia.
  - apply Hclean; tauto.
  - message_cases;
      apply Hsame; fields; autorewrite with observers;
      rewrite ?stopped_streams_stops; cbn;
      rewrite ?app_nil_r; try reflexivity; try lia.
  - message_cases;
      apply Hsame; fields; autorewrite with observers;
      rewrite ?stopped_streams_stops; cbn;
      rewrite ?app_nil_r; try reflexivity; try lia.
Qed.

Lemma run_stream_frame (events : list Event) (w : World) :
  localStreamRef w <> Some s -> (s < nextId w)%nat ->
  In s (stopped_streams (trace (run API_KEY decodeAudioData w events))) ->
  In s (stopped_streams (trace w)).
Proof.
  revert w. induction events as [|e events IH]; intros w Href Hid Hin.
  - exact Hin.
  - rewrite run_cons in Hin.
    destruct (step_stream_frame w e Href Hid) as (H1 & H2 & H3).
    apply H3, (IH _ H1 H2 Hin).
Qed.

End ReplacedStream.

(** X16 (a stream that is replaced).  When [getUserMedia] resolves while
    the ref already holds a stream [s], as it does when two starts overlap,
    [startChat] overwrites the ref without stopping the tracks of [s], and
    from then on no handler can reach [s]: whatever events follow, its
    tracks are never stopped. *)
Theorem replaced_stream_is_never_stopped
    (API_KEY : option string) (decodeAudioData : string -> option AudioBuffer)
    (w : World) (s : MediaStream) (events : list Event) :
  localStreamRef w = Some s ->
  (s < nextId w)%nat ->
  ~ In s (stopped_streams (trace w)) ->
  let w1 := step API_KEY decodeAudioData w (UserMediaSettled true) in
  localStreamRef w1 <> Some s
  /\ ~ In s (stopped_streams
               (trace (run API_KEY decodeAudioData w1 events))).
Proof.
  intros Href Hid Hnot. cbv zeta.
  set (w1 := step API_KEY decodeAudioData w (UserMediaSettled true)).
  assert (H1 : localStreamRef w1 <> Some s /\ (s < nextId w1)%nat
               /\ ~ In s (stopped_streams (trace w1))).
  { unfold w1. to_handler. destruct (truthy API_KEY) eqn:Hkey.
    - rewrite (startChat_resume_connects API_KEY w Hkey). fields.
      autorewrite with observers. cbn. rewrite !app_nil_r.
      splits; [|lia|exact Hnot]. intros H. inversion H. lia.
    - rewrite (startChat_resume_no_key API_KEY w Hkey), cleanup_run. fields.
      autorewrite with observers.
      match goal with |- context [cleanup_calls ?v] =>
        pose proof (cleanup_calls_seen 0 v) as (_ & _ & _ & _ & V5) end.
      rewrite V5. fields. cbn. rewrite !app_nil_r.
      splits; [discriminate | lia |].
      intros Hin. apply in_app_or in Hin. destruct Hin as [Hin|[Hin|[]]].
      + apply Hnot, Hin.
      + lia. }
  destruct H1 as (A1 & A2 & A3).
  split; [exact A1|].
  intros Hin. apply A3.
  apply (run_stream_frame API_KEY decodeAudioData s events w1 A1 A2 Hin).
Qed.

Lemma replaced_stream_is_never_stopped_witness :
  let w := run (Some "key"%string) sample_decoder initial
             [Start; Start; UserMediaSettled true] in
  localStreamRef w = Some 0%nat
  /\ (0 < nextId w)%nat
  /\ ~ In 0%nat (stopped_streams (trace w))
  /\ ~ In 0%nat (stopped_streams
                   (trace (run (Some "key"%string) sample_decoder
                             (step (Some "key"%string) sample_decoder w
                                (UserMediaSettled true))
                             [Open; Stop; Unmount]))).
Proof.
  cbv zeta.
  set (w := run (Some "key"%string) sample_decoder initial
              [Start; Start; UserMediaSettled true]).
  assert (H1 : localStreamRef w = Some 0%nat) by reflexivity.
  assert (H2 : (0 < nextId w)%nat) by (vm_compute; lia).
  assert (H3 : ~ In 0%nat (stopped_streams (trace w)))
    by (vm_compute; tauto).
  split; [exact H1|]. split; [exact H2|]. split; [exact H3|].
  exact (proj2 (replaced_stream_is_never_stopped (Some "key"%string)
                  sample_decoder w 0%nat [Open; Stop; Unmount] H1 H2 H3)).
Defined.

(** ** A connection that is replaced, and the first buffer of a session *)

(** X17 (a connection that is replaced).  When a start reaches
    [ai.live.connect] while the ref still holds a session promise [p], the
    ref is overwritten and no [close] is queued on [p].  Whatever events
    follow, the component then makes no call on the session of [p] beyond
    those already queued on it, which run when [p] resolves: it never
    closes that connection. *)
Theorem replaced_connection_is_never_closed
    (API_KEY : option string) (decodeAudioData : string -> option AudioBuffer)
    (w : World) (p : SessionPromise) (events : list Event) :
  truthy API_KEY = true ->
  sessionPromiseRef w = Some p ->
  (p < nextId w)%nat ->
  (existsb (Nat.eqb p) (resolved w) = true -> queued_on p (reactions w) = []) ->
  let w1 := step API_KEY decodeAudioData w (UserMediaSettled true) in
  let final := run API_KEY decodeAudioData w1 events in
  sessionPromiseRef w1 = Some (3 + nextId w)%nat
  /\ queued_on p (reactions w1) = queued_on p (reactions w)
  /\ session_calls p (trace final)
     = session_calls p (trace w)
       ++ (if existsb (resolves p) events
           then map (call_of p) (queued_on p (reactions w))
           else []).
Proof.
  intros Hkey Href Hid Hq. cbv zeta.
  set (w1 := step API_KEY decodeAudioData w (UserMediaSettled true)).
  assert (H1 : sessionPromiseRef w1 = Some (3 + nextId w)%nat
               /\ nextId w1 = (4 + nextId w)%nat
               /\ resolved w1 = resolved w
               /\ queued_on p (reactions w1) = queued_on p (reactions w)
               /\ session_calls p (trace w1) = session_calls p (trace w)).
  { unfold w1, step.
    rewrite jobs_sessionPromiseRef, jobs_nextId, jobs_resolved,
      run_jobs_reactions, run_jobs_trace, session_calls_app,
      run_reactions_kept, run_reactions_calls.
    cbn [handler]. rewrite (startChat_resume_connects API_KEY w Hkey). fields.
    rewrite session_calls_app. cbn [session_calls]. rewrite !app_nil_r.
    destruct (existsb (Nat.eqb p) (resolved w)) eqn:E.
    - rewrite (Hq eq_refl). cbn. rewrite app_nil_r. splits; reflexivity.
    - rewrite app_nil_r. splits; reflexivity. }
  destruct H1 as (W1 & W2 & W3 & W4 & W5).
  split; [exact W1|]. split; [exact W4|].
  assert (Href1 : sessionPromiseRef w1 <> Some p).
  { rewrite W1. intros H. inversion H. lia. }
  assert (Hid1 : (p < nextId w1)%nat) by (rewrite W2; lia).
  destruct (existsb (Nat.eqb p) (resolved w)) eqn:E.
  - assert (E1 : existsb (Nat.eqb p) (resolved w1) = true)
      by (rewrite W3; exact E).
    assert (Q1 : queued_on p (reactions w1) = [])
      by (rewrite W4; apply Hq; reflexivity).
    destruct (run_settled API_KEY decodeAudioData p events w1
                Href1 Hid1 E1 Q1) as (R1 & _).
    cbv zeta in R1. rewrite R1, W5, (Hq eq_refl). cbn.
    destruct (existsb (resolves p) events); rewrite app_nil_r; reflexivity.
  - assert (E1 : existsb (Nat.eqb p) (resolved w1) = false)
      by (rewrite W3; exact E).
    destruct (run_pending API_KEY decodeAudioData p events w1
                Href1 Hid1 E1) as (R1 & _).
    cbv zeta in R1. rewrite R1, W4, W5. reflexivity.
Qed.

Lemma replaced_connection_is_never_closed_witness :
  truthy (Some "key"%string) = true
  /\ sessionPromiseRef connected = Some 3%nat
  /\ (3 < nextId connected)%nat
  /\ (existsb (Nat.eqb 3%nat) (resolved connected) = true ->
      queued_on 3%nat (reactions connected) = [])
  /\ session_calls 3%nat
       (trace (run (Some "key"%string) sample_decoder
                 (step (Some "key"%string) sample_decoder connected
                    (UserMediaSettled true))
                 [Stop; Unmount]))
     = session_calls 3%nat (trace connected) ++ [].
Proof.
  assert (H3 : (3 < nextId connected)%nat) by (vm_compute; lia).
  assert (H4 : existsb (Nat.eqb 3%nat) (resolved connected) = true ->
               queued_on 3%nat (reactions connected) = [])
    by (intros _; reflexivity).
  split; [reflexivity|]. split; [reflexivity|]. split; [exact H3|].
  split; [exact H4|].
  pose proof (replaced_connection_is_never_closed (Some "key"%string)
                sample_decoder connected 3%nat [Stop; Unmount]
                eq_refl eq_refl H3 H4) as H.
  cbv zeta in H. exact (proj2 (proj2 H)).
Defined.

(** X18 (the first buffer of a session).  From any world, with a key and
    the devices granted, a start followed by [onopen] and by a message that
    carries a payload which decodes schedules exactly one buffer, at the
    clock reading of that message when it is not negative; unless the
    message also interrupts, the source is then the only one playing and
    the cursor is the clock reading plus the buffer's duration. *)
Theorem first_buffer_starts_at_clock
    (API_KEY : option string) (decodeAudioData : string -> option AudioBuffer)
    (w : World) (message : LiveServerMessage) (payload : string)
    (buffer : AudioBuffer) (currentTime : Z) :
  truthy API_KEY = true ->
  audioData_of message = Returned (Some payload) ->
  truthy (Some payload) = true ->
  decodeAudioData payload = Some buffer ->
  0 <= currentTime ->
  let final := run API_KEY decodeAudioData w
                 [Start; UserMediaSettled true; Open;
                  Message message currentTime] in
  startTimes (trace final) = startTimes (trace w) ++ [currentTime]
  /\ status final = CONNECTED
  /\ (interrupted_of message = false ->
      playingSourcesRef final = [(6 + nextId w)%nat]
      /\ nextStartTimeRef final = currentTime + duration buffer).
Proof.
  intros Hkey Haudio Htruthy Hdec Htime. cbv zeta.
  cbn [run fold_left].
  set (w1 := step API_KEY decodeAudioData w Start).
  set (w2 := step API_KEY decodeAudioData w1 (UserMediaSettled true)).
  set (w3 := step API_KEY decodeAudioData w2 Open).
  destruct (cleanup_calls_quiet w) as (_ & Q2 & _).
  assert (H3 : outputAudioContextRef w3 = Some (2 + nextId w)%nat
               /\ nextStartTimeRef w3 = 0
               /\ playingSourcesRef w3 = []
               /\ nextId w3 = (6 + nextId w)%nat
               /\ status w3 = CONNECTED
               /\ startTimes (trace w3) = startTimes (trace w)).
  { unfold w3, w2, w1. splits.
    all: repeat (progress (to_handler;
           rewrite ?onopen_run, ?startChat_begin_world,
             ?(startChat_resume_connects API_KEY _ Hkey);
           fields; autorewrite with observers jobs)).
    all: rewrite ?Q2; cbn; rewrite ?app_nil_r; reflexivity. }
  destruct H3 as (O3 & C3 & P3 & N3 & S3 & T3).
  assert (Hplay : audio_to_play message w3 = Some payload).
  { unfold audio_to_play. rewrite Haudio, O3, Htruthy. reflexivity. }
  assert (Hmax : Z.max 0 currentTime = currentTime) by lia.
  splits.
  - to_handler.
    rewrite (onmessage_plays _ _ _ _ _ Hplay), onmessage_audio_run, Hdec.
    rewrite C3, Hmax.
    destruct (interrupted_of message); cbv beta iota delta [when ret];
      rewrite ?onmessage_interrupted_run; fields;
      autorewrite with observers; rewrite ?startTimes_stops, T3; cbn;
      rewrite ?app_nil_r; reflexivity.
  - to_handler.
    rewrite (onmessage_keeps_status API_KEY decodeAudioData). exact S3.
  - intros Hflag. split; to_handler;
      rewrite (onmessage_plays _ _ _ _ _ Hplay), onmessage_audio_run, Hdec, Hflag;
      cbv beta iota delta [when ret]; fields.
    + rewrite P3, N3. reflexivity.
    + rewrite C3, Hmax. reflexivity.
Qed.

Lemma first_buffer_starts_at_clock_witness :
  truthy (Some "key"%string) = true
  /\ audioData_of (audio_message "1234") = Returned (Some "1234"%string)
  /\ truthy (Some "1234"%string) = true
  /\ sample_decoder "1234" = Some (mkAudioBuffer 2)
  /\ 0 <= 7
  /\ startTimes (trace (run (Some "key"%string) sample_decoder playing_two
                          [Start; UserMediaSettled true; Open;
                           Message (audio_message "1234") 7]))
     = startTimes (trace playing_two) ++ [7].
Proof.
  assert (H5 : 0 <= 7) by lia.
  do 4 (split; [reflexivity|]). split; [exact H5|].
  exact (proj1 (first_buffer_starts_at_clock (Some "key"%string)
                  sample_decoder playing_two (audio_message "1234") "1234"
                  (mkAudioBuffer 2) 7 eq_refl eq_refl eq_refl eq_refl H5)).
Defined.
